(** * shell2node: capture mode, log parsing and replay-script generation

    A shallow embedding of [src/shell2node.ts].  JavaScript strings are
    sequences of UTF-16 code units; they are modelled as lists of [N], and
    the string built-ins the program calls ([indexOf], [slice], [trim],
    [split], [startsWith], [includes], [JSON.stringify] ...) are written
    out on that representation.  The run of the program is a function
    from the world it finds (arguments, environment, what becomes of the
    child shell, the marker, the log) to the effects it has and the way
    it ends.

    The definitions come first: strings, the log parser, JSON writing and
    reading, the program, and the meaning of the script it generates.
    The properties follow, with the claims C1-C10 on the program. *)

From Stdlib Require Import List NArith ZArith Bool Ascii String DecimalString Lia.
Import ListNotations.

Local Open Scope N_scope.

(** ** JavaScript strings *)

Definition jsstring := list N.

(** String constants of the source, written as Rocq strings. *)
Definition js (s : string) : jsstring :=
  map N_of_ascii (list_ascii_of_string s).
Arguments js s%_string.

Definition LF : N := 10.
Definition CR : N := 13.
Definition SPACE : N := 32.
Definition DQUOTE : N := 34.
Definition BACKSLASH : N := 92.

Fixpoint str_eqb (a b : jsstring) : bool :=
  match a, b with
  | [], [] => true
  | x :: a', y :: b' => (x =? y) && str_eqb a' b'
  | _, _ => false
  end.

(** [s.length === 0]; a string is falsy exactly when it is empty. *)
Definition is_empty (s : jsstring) : bool :=
  match s with [] => true | _ :: _ => false end.

Definition truthy (s : jsstring) : bool := negb (is_empty s).

(** [s.startsWith(p)] *)
Fixpoint startsWith (s p : jsstring) {struct p} : bool :=
  match p, s with
  | [], _ => true
  | _ :: _, [] => false
  | y :: p', x :: s' => (x =? y) && startsWith s' p'
  end.

(** [s.includes(p)] *)
Fixpoint includes (s p : jsstring) : bool :=
  startsWith s p ||
  match s with
  | [] => false
  | _ :: s' => includes s' p
  end.

(** [s.indexOf(c)] for a one-unit needle: the first index, or [-1]. *)
Fixpoint indexOf (s : jsstring) (c : N) : Z :=
  match s with
  | [] => (-1)%Z
  | x :: s' =>
      if x =? c then 0%Z
      else let i := indexOf s' c in
           if (i =? -1)%Z then (-1)%Z else (i + 1)%Z
  end.

(** [s.slice(start, end)]: negative indices count from the end, both are
    clamped to the length, and an empty string results when the range is
    empty.  [None] stands for an omitted [end]. *)
Definition clamp_index (len i : Z) : Z :=
  if (i <? 0)%Z then Z.max (len + i) 0 else Z.min i len.

Definition slice (s : jsstring) (start : Z) (stop : option Z) : jsstring :=
  let len := Z.of_nat (List.length s) in
  let from := clamp_index len start in
  let to := match stop with None => len | Some e => clamp_index len e end in
  firstn (Z.to_nat (Z.max (to - from) 0)) (skipn (Z.to_nat from) s).

(** White space and line terminators of ECMAScript, as stripped by
    [trim]. *)
Definition isWhiteSpace (c : N) : bool :=
  (c =? 9) || (c =? 10) || (c =? 11) || (c =? 12) || (c =? 13) ||
  (c =? 32) || (c =? 160) || (c =? 5760) ||
  ((8192 <=? c) && (c <=? 8202)) ||
  (c =? 8232) || (c =? 8233) || (c =? 8239) || (c =? 8287) ||
  (c =? 12288) || (c =? 65279).

Fixpoint trimStart (s : jsstring) : jsstring :=
  match s with
  | [] => []
  | c :: s' => if isWhiteSpace c then trimStart s' else s
  end.

Definition trimEnd (s : jsstring) : jsstring := rev (trimStart (rev s)).

(** [s.trim()] strips both ends. *)
Definition trim (s : jsstring) : jsstring := trimEnd (trimStart s).

(** [s.split(/\r?\n/)]: a separator is a line feed, together with the
    carriage return right before it when there is one.  The result always
    has at least one piece. *)
Fixpoint split_lines (s : jsstring) : list jsstring :=
  match s with
  | [] => [[]]
  | c :: rest =>
      if c =? LF then [] :: split_lines rest
      else
        match rest with
        | d :: rest' =>
            if (c =? CR) && (d =? LF) then [] :: split_lines rest'
            else match split_lines rest with
                 | [] => [[c]]
                 | l :: ls => (c :: l) :: ls
                 end
        | [] => [[c]]
        end
  end.

(** [lines.join('\n')] *)
Fixpoint join_lines (ls : list jsstring) : jsstring :=
  match ls with
  | [] => []
  | [l] => l
  | l :: ls' => l ++ LF :: join_lines ls'
  end.

(** ** Log entries (lines 110-126) *)

Record Entry := mkEntry { ts : option jsstring; cmd : jsstring }.

(** The lines of the log: [raw] of the source. *)
Definition rawLines (text : jsstring) : list jsstring :=
  filter truthy (split_lines (trim text)).

(** The callback of [raw.map]. *)
Definition parseLine (line : jsstring) : Entry :=
  let idx := indexOf line SPACE in
  if (idx =? -1)%Z then mkEntry None line
  else mkEntry (Some (slice line 0 (Some idx))) (slice line (idx + 1) None).

(** The callback of [.filter]: [e.cmd && !e.cmd.startsWith('shell2node')]. *)
Definition keep (e : Entry) : bool :=
  truthy (cmd e) && negb (startsWith (cmd e) (js "shell2node")).

Definition parsedEntries (text : jsstring) : list Entry :=
  map parseLine (rawLines text).

(** [entries] of the source. *)
Definition parseLog (text : jsstring) : list Entry :=
  filter keep (parsedEntries text).

(** ** [JSON.stringify] on a string: QuoteJSONString (ECMA-262, 25.5.2.3)

    The string is read code point by code point: a leading surrogate
    followed by a trailing one is a pair and is copied; a surrogate on its
    own is escaped, as are the control characters, the double quote and the
    backslash. *)

Definition isLeadSurrogate (c : N) : bool := (0xD800 <=? c) && (c <=? 0xDBFF).
Definition isTrailSurrogate (c : N) : bool := (0xDC00 <=? c) && (c <=? 0xDFFF).

Definition hexDigit (d : N) : N := if d <? 10 then 48 + d else 87 + d.

(** [\uXXXX], lower-case hexadecimal. *)
Definition UnicodeEscape (c : N) : jsstring :=
  [BACKSLASH; 117; hexDigit (c / 4096); hexDigit ((c / 256) mod 16);
   hexDigit ((c / 16) mod 16); hexDigit (c mod 16)].

Definition quoteUnit (c : N) : jsstring :=
  if c =? 8 then [BACKSLASH; 98]
  else if c =? 9 then [BACKSLASH; 116]
  else if c =? 10 then [BACKSLASH; 110]
  else if c =? 12 then [BACKSLASH; 102]
  else if c =? 13 then [BACKSLASH; 114]
  else if c =? DQUOTE then [BACKSLASH; DQUOTE]
  else if c =? BACKSLASH then [BACKSLASH; BACKSLASH]
  else if (c <? 32) || isLeadSurrogate c || isTrailSurrogate c
       then UnicodeEscape c
  else [c].

Fixpoint quoteBody (s : jsstring) : jsstring :=
  match s with
  | [] => []
  | c :: rest =>
      match rest with
      | d :: rest' =>
          if isLeadSurrogate c && isTrailSurrogate d
          then c :: d :: quoteBody rest'
          else quoteUnit c ++ quoteBody rest
      | [] => quoteUnit c
      end
  end.

Definition QuoteJSONString (s : jsstring) : jsstring :=
  DQUOTE :: quoteBody s ++ [DQUOTE].

(** ** Reading a string literal back

    The string grammar of JSON, which the double-quoted string literals of
    ECMAScript include with the same meaning.  [lexString] reads one
    literal at the head of its input and returns its value together with
    the input that follows the closing quote. *)

Definition hexVal (c : N) : option N :=
  if (48 <=? c) && (c <=? 57) then Some (c - 48)
  else if (97 <=? c) && (c <=? 102) then Some (c - 87)
  else if (65 <=? c) && (c <=? 70) then Some (c - 55)
  else None.

Definition unescape (e : N) : option N :=
  if e =? DQUOTE then Some DQUOTE
  else if e =? BACKSLASH then Some BACKSLASH
  else if e =? 47 then Some 47
  else if e =? 98 then Some 8
  else if e =? 102 then Some 12
  else if e =? 110 then Some 10
  else if e =? 114 then Some 13
  else if e =? 116 then Some 9
  else None.

Definition consValue (c : N) (r : option (jsstring * jsstring))
  : option (jsstring * jsstring) :=
  match r with
  | Some (v, rest) => Some (c :: v, rest)
  | None => None
  end.

Fixpoint lexBody (s : jsstring) : option (jsstring * jsstring) :=
  match s with
  | [] => None
  | c :: rest =>
      if c =? DQUOTE then Some ([], rest)
      else if c =? BACKSLASH then
        match rest with
        | [] => None
        | e :: rest1 =>
            if e =? 117 then
              match rest1 with
              | h1 :: h2 :: h3 :: h4 :: rest2 =>
                  match hexVal h1, hexVal h2, hexVal h3, hexVal h4 with
                  | Some a, Some b, Some c', Some d =>
                      consValue (a * 4096 + b * 256 + c' * 16 + d)
                                (lexBody rest2)
                  | _, _, _, _ => None
                  end
              | _ => None
              end
            else
              match unescape e with
              | Some u => consValue u (lexBody rest1)
              | None => None
              end
        end
      else if c <? 32 then None
      else consValue c (lexBody rest)
  end.

Definition lexString (s : jsstring) : option (jsstring * jsstring) :=
  match s with
  | c :: rest => if c =? DQUOTE then lexBody rest else None
  | [] => None
  end.

(** ** [JSON.stringify(value, null, 2)] (ECMA-262, 25.5.2)

    Only the kinds of value the metadata object holds are needed: [null],
    strings, arrays and objects with their keys in insertion order. *)

#[local] Unset Elimination Schemes.
Inductive JSON :=
| JNull
| JStr (s : jsstring)
| JArr (items : list JSON)
| JObj (props : list (jsstring * JSON)).
#[local] Set Elimination Schemes.

(** [partial.join(separator)] *)
Fixpoint join_with (sep : jsstring) (parts : list jsstring) : jsstring :=
  match parts with
  | [] => []
  | [p] => p
  | p :: ps => p ++ sep ++ join_with sep ps
  end.

Definition gap : jsstring := js "  ".

(** SerializeJSONProperty / SerializeJSONObject / SerializeJSONArray with
    a non-empty gap; [indent] is the current indentation. *)
Fixpoint SerializeJSON (indent : jsstring) (v : JSON) {struct v} : jsstring :=
  match v with
  | JNull => js "null"
  | JStr s => QuoteJSONString s
  | JArr items =>
      let stepback := indent in
      let indent := indent ++ gap in
      match items with
      | [] => js "[]"
      | _ =>
          js "[" ++ LF :: indent ++
          join_with (js "," ++ LF :: indent) (map (SerializeJSON indent) items) ++
          LF :: stepback ++ js "]"
      end
  | JObj props =>
      let stepback := indent in
      let indent := indent ++ gap in
      match props with
      | [] => js "{}"
      | _ =>
          js "{" ++ LF :: indent ++
          join_with (js "," ++ LF :: indent)
            (map (fun kv => QuoteJSONString (fst kv) ++ js ": " ++
                            SerializeJSON indent (snd kv)) props) ++
          LF :: stepback ++ js "}"
      end
  end.

Definition JSON_stringify_2 (v : JSON) : jsstring := SerializeJSON [] v.

(** ** Reading a JSON text back ([JSON.parse], for the same kinds of
    value) *)

Definition isJSONSpace (c : N) : bool :=
  (c =? 32) || (c =? 9) || (c =? 10) || (c =? 13).

Fixpoint skipSpace (s : jsstring) : jsstring :=
  match s with
  | c :: rest => if isJSONSpace c then skipSpace rest else s
  | [] => []
  end.

(** [expect p s]: what follows [p] when [s] starts with it. *)
Definition expect (p s : jsstring) : option jsstring :=
  if startsWith s p then Some (skipn (List.length p) s) else None.

Definition LBRACKET : N := 91.
Definition RBRACKET : N := 93.
Definition LBRACE : N := 123.
Definition RBRACE : N := 125.
Definition COMMA : N := 44.
Definition COLON : N := 58.

(** The elements of an array after its opening bracket, and the
    properties of an object after its opening brace; [pv] reads one value
    and [n] bounds the number of elements read. *)
Fixpoint parseItems (pv : jsstring -> option (JSON * jsstring))
    (n : nat) (s : jsstring) : option (list JSON * jsstring) :=
  match n with
  | O => None
  | S n =>
      match pv s with
      | None => None
      | Some (v, rest) =>
          match skipSpace rest with
          | c :: rest' =>
              if c =? COMMA then
                match parseItems pv n rest' with
                | Some (vs, r) => Some (v :: vs, r)
                | None => None
                end
              else if c =? RBRACKET then Some ([v], rest')
              else None
          | [] => None
          end
      end
  end.

Fixpoint parseProps (pv : jsstring -> option (JSON * jsstring))
    (n : nat) (s : jsstring) : option (list (jsstring * JSON) * jsstring) :=
  match n with
  | O => None
  | S n =>
      match lexString (skipSpace s) with
      | None => None
      | Some (k, rest) =>
          match skipSpace rest with
          | c :: rest0 =>
              if c =? COLON then
                match pv rest0 with
                | None => None
                | Some (v, rest1) =>
                    match skipSpace rest1 with
                    | c' :: rest' =>
                        if c' =? COMMA then
                          match parseProps pv n rest' with
                          | Some (kvs, r) => Some ((k, v) :: kvs, r)
                          | None => None
                          end
                        else if c' =? RBRACE then Some ([(k, v)], rest')
                        else None
                    | [] => None
                    end
                end
              else None
          | [] => None
          end
      end
  end.

(** The recursion follows the nesting of the text; [fuel] bounds the
    nesting depth and the length of each array and object. *)
Fixpoint parseValue (fuel : nat) (s : jsstring) : option (JSON * jsstring) :=
  match fuel with
  | O => None
  | S fuel' =>
      match skipSpace s with
      | [] => None
      | c :: rest =>
          if c =? DQUOTE then
            match lexString (c :: rest) with
            | Some (v, r) => Some (JStr v, r)
            | None => None
            end
          else if c =? LBRACKET then
            match skipSpace rest with
            | d :: rest' =>
                if d =? RBRACKET then Some (JArr [], rest')
                else match parseItems (parseValue fuel') fuel rest with
                     | Some (vs, r) => Some (JArr vs, r)
                     | None => None
                     end
            | [] => None
            end
          else if c =? LBRACE then
            match skipSpace rest with
            | d :: rest' =>
                if d =? RBRACE then Some (JObj [], rest')
                else match parseProps (parseValue fuel') fuel rest with
                     | Some (kvs, r) => Some (JObj kvs, r)
                     | None => None
                     end
            | [] => None
            end
          else
            match expect (js "null") (c :: rest) with
            | Some r => Some (JNull, r)
            | None => None
            end
      end
  end.

(** A text is one value, with nothing but white space after it. *)
Definition JSON_parse (fuel : nat) (s : jsstring) : option JSON :=
  match parseValue fuel s with
  | Some (v, rest) => if is_empty (skipSpace rest) then Some v else None
  | None => None
  end.

(** ** Paths, case and numbers *)

Definition SLASH : N := 47.

Fixpoint dropSlashes (s : jsstring) : jsstring :=
  match s with
  | c :: rest => if c =? SLASH then dropSlashes rest else s
  | [] => []
  end.

Fixpoint untilSlash (s : jsstring) : jsstring :=
  match s with
  | c :: rest => if c =? SLASH then [] else c :: untilSlash rest
  | [] => []
  end.

(** [path.basename(p)] (POSIX): trailing separators are ignored and the
    last remaining component is returned. *)
Definition basename (p : jsstring) : jsstring :=
  rev (untilSlash (dropSlashes (rev p))).

Definition endsWithSlash (p : jsstring) : bool :=
  match rev p with c :: _ => c =? SLASH | [] => false end.

(** [path.join(dir, name)] and [path.resolve(dir, name)] for a normalised
    absolute [dir] (what [mkdtempSync] and [process.cwd()] return) and a
    plain file name. *)
Definition path_join (dir name : jsstring) : jsstring :=
  if endsWithSlash dir then dir ++ name else dir ++ SLASH :: name.

(** [s.toLowerCase()] on the letters A-Z only.  The language also maps
    capitals outside ASCII; none of them to a letter of ['zsh'] or
    ['bash'], so the match that chooses the strategy is the one of the
    language.  For a base name with such a capital the text of the
    warning, which quotes the lower-cased name, is not the one printed. *)
Definition lowerUnit (c : N) : N :=
  if (65 <=? c) && (c <=? 90) then c + 32 else c.

Definition toLowerCase (s : jsstring) : jsstring := map lowerUnit s.

(** [String(n)] for an integer. *)
Definition showZ (z : Z) : jsstring :=
  js (DecimalString.NilZero.string_of_int (Z.to_int z)).

Definition showNat (n : nat) : jsstring := showZ (Z.of_nat n).

(** [`${x}`] for a value that may be [null]. *)
Definition showOr {A} (show : A -> jsstring) (x : option A) : jsstring :=
  match x with Some a => show a | None => js "null" end.

(** [iso.replace(/[:.]/g, '-')] *)
Definition dashed (iso : jsstring) : jsstring :=
  map (fun c => if (c =? 58) || (c =? 46) then 45 else c) iso.

(** ** The world the program runs in, and what it does to it *)

Inductive Stdio := StdioPipe | StdioInherit.

(** What is written to a file.  The two rc texts are the templates of
    [utils/rcContent.ts] applied to the two paths; they are kept
    symbolic. *)
Inductive FileBody :=
| Text (s : jsstring)
| BashRcContent (logFile markerFile : jsstring)
| ZshRcContent (logFile markerFile : jsstring).

Inductive Effect :=
| UsageMessage
| HelpMessage (tmpRoot : jsstring)
| ConsoleLog (msg : jsstring)
| ConsoleWarn (msg : jsstring)
| ConsoleError (msg : jsstring)
| WriteFile (path : jsstring) (body : FileBody) (mode : option Z)
| MkdirRecursive (path : jsstring)
| SpawnChild (file : jsstring) (args : list jsstring) (stdio : Stdio)
             (extraEnv : list (jsstring * jsstring)).

(** How the process ends: [process.exit(status)], or an exception that
    nothing catches, which the runtime reports before it ends the process
    with status 1. *)
Inductive Outcome :=
| Exited (status : Z)
| Uncaught.

Definition exitStatus (o : Outcome) : Z :=
  match o with Exited st => st | Uncaught => 1 end.

(** What becomes of the spawned shell: the ['error'] event, or the
    ['exit'] event with its code and signal. *)
Inductive ChildEvent :=
| SpawnFailed
| ChildExited (code : option Z) (signal : option jsstring).

(** What a run finds around it, once its temporary workspace is set up
    (lines 30-57 are taken not to throw).  At exit, reading the log may
    throw, and so may creating the output directory and writing each of
    the two artifact files; nothing in the program catches these. *)
Record World := mkWorld {
  argv : list jsstring;              (* process.argv.slice(2) *)
  env_SHELL : option jsstring;       (* process.env.SHELL *)
  tmpRoot : jsstring;                (* what mkdtempSync returns *)
  cwd : jsstring;                    (* process.cwd() *)
  child : ChildEvent;
  markerExists : bool;               (* existsSync(markerFile) at exit *)
  logText : option jsstring;         (* readFileSync(logFile); None: it throws *)
  outDirExists : bool;               (* existsSync(outDir) *)
  nowName : jsstring;                (* the three new Date().toISOString() *)
  nowMeta : jsstring;
  nowHeader : jsstring;
  mkdirThrows : bool;                (* mkdirSync(outDir, ...) throws *)
  metaWriteThrows : bool;            (* writeFileSync of the metadata throws *)
  scriptWriteThrows : bool           (* writeFileSync of the script throws *)
}.

(** Permission bits of a file created by [writeFileSync]: the mode
    asked for, 0o666 when none is given, less the bits of the umask. *)
Definition MODE_0600 : Z := 0x180.
Definition MODE_0666 : Z := 0x1B6.

Definition createdMode (mode : option Z) (umask : Z) : Z :=
  Z.ldiff (match mode with Some m => m | None => MODE_0666 end) umask.

Definition logFile (w : World) : jsstring := path_join (tmpRoot w) (js "commands.log").
Definition markerFile (w : World) : jsstring := path_join (tmpRoot w) (js ".save_marker").
Definition bashRcPath (w : World) : jsstring := path_join (tmpRoot w) (js "capture_rc.sh").
Definition zshRcPath (w : World) : jsstring := path_join (tmpRoot w) (js ".zshrc").

(** Lines 30-57: the temporary workspace. *)
Definition createWorkspace (w : World) : list Effect :=
  [ WriteFile (logFile w) (Text []) None;
    HelpMessage (tmpRoot w);
    WriteFile (bashRcPath w) (BashRcContent (logFile w) (markerFile w))
              (Some MODE_0600);
    WriteFile (zshRcPath w) (ZshRcContent (logFile w) (markerFile w))
              (Some MODE_0600) ].

(** Lines 59-94: the shell and how it is spawned. *)
Definition userShell (w : World) : jsstring :=
  match env_SHELL w with
  | Some s => if truthy s then s else js "/bin/bash"
  | None => js "/bin/bash"
  end.

Definition shellBase (shell : jsstring) : jsstring :=
  toLowerCase (basename shell).

Definition spawnShell (root rc shell : jsstring) : list Effect :=
  let base := shellBase shell in
  if includes base (js "zsh") then
    [ ConsoleLog (js "Detected zsh: launching an interactive zsh with temporary .zshrc.");
      SpawnChild shell [js "-i"] StdioInherit [(js "ZDOTDIR", root)] ]
  else if includes base (js "bash") then
    [ ConsoleLog (js "Detected bash: launching an interactive bash with temporary rcfile.");
      SpawnChild shell [js "--rcfile"; rc; js "-i"] StdioInherit [] ]
  else
    [ ConsoleWarn (js "Warning: detected shell '" ++ base ++
                   js "'. This MLP supports bash and zsh best. Trying to spawn " ++
                   shell ++ js " but capture may not work.");
      if includes shell (js "bash")
      then SpawnChild shell [js "--rcfile"; rc; js "-i"] StdioInherit []
      else SpawnChild shell [js "-i"] StdioInherit [] ].

(** Lines 140-149: the metadata object and its text. *)
Definition entryJSON (e : Entry) : JSON :=
  JObj [ (js "ts", match ts e with Some t => JStr t | None => JNull end);
         (js "cmd", JStr (cmd e)) ].

Definition metaJSON (w : World) (entries : list Entry) : JSON :=
  JObj [ (js "originalCapturedAt", JStr (nowMeta w));
         (js "tmpWorkspace", JStr (tmpRoot w));
         (js "entries", JArr (map entryJSON entries)) ].

Definition metaText (w : World) (entries : list Entry) : jsstring :=
  JSON_stringify_2 (metaJSON w entries).

(** Lines 153-183: the lines of the replay script. *)
Definition scriptPrologue (count : nat) (generatedAt : jsstring) : list jsstring :=
  [ js "// Generated by shell2node (MLP)";
    js "// Captured commands: " ++ showNat count;
    js "// Generated at: " ++ generatedAt;
    [];
    js "import { spawnSync } from 'child_process' ";
    [];
    js "function run(cmd) {";
    js "  console.log('> ' + cmd);";
    js "  const r = spawnSync('sh', ['-c', cmd], { stdio: 'inherit' });";
    js "  if (r.error) {";
    js "    console.error('Failed to run command:', r.error);";
    js "    process.exit(r.status || 1);";
    js "  }";
    js "  if (r.status && r.status !== 0) {";
    js "    console.error('Command exited with code', r.status);";
    js "    process.exit(r.status);";
    js "  }";
    js "}";
    [];
    js "(async () => {" ].

Definition runLine (e : Entry) : jsstring :=
  js "  run(" ++ QuoteJSONString (cmd e) ++ js ");".

Definition scriptLines (generatedAt : jsstring) (entries : list Entry) : list jsstring :=
  scriptPrologue (List.length entries) generatedAt ++
  map runLine entries ++
  [ js "})();" ].

Definition scriptText (generatedAt : jsstring) (entries : list Entry) : jsstring :=
  join_lines (scriptLines generatedAt entries).

Definition outDir (w : World) : jsstring := path_join (cwd w) (js "generated").
Definition genFile (w : World) : jsstring :=
  path_join (outDir w) (dashed (nowName w) ++ js "-replay.js").
Definition metaFile (w : World) : jsstring :=
  path_join (outDir w) (dashed (nowName w) ++ js "-meta.json").

(** Line 97: the first line the exit handler prints. *)
Definition exitedMessage (code : option Z) (signal : option jsstring) : Effect :=
  ConsoleLog (LF :: js "Capture shell exited (code=" ++ showOr showZ code ++
              js " signal=" ++ showOr (fun s => s) signal ++ js ").").

(** Lines 134-194: the artifact, once an entry is retained.  The three
    file-system calls are made in this order; one that throws is not
    caught, so the handler ends there: what was done before stays done,
    nothing after it is done. *)
Definition writeArtifact (w : World) (entries : list Entry)
  : list Effect * Outcome :=
  if negb (outDirExists w) && mkdirThrows w then ([], Uncaught)
  else
    let made := if outDirExists w then [] else [ MkdirRecursive (outDir w) ] in
    if metaWriteThrows w then (made, Uncaught)
    else
      let meta := WriteFile (metaFile w) (Text (metaText w entries)) None in
      if scriptWriteThrows w then (made ++ [ meta ], Uncaught)
      else
        (made ++
         [ meta;
           WriteFile (genFile w) (Text (scriptText (nowHeader w) entries)) None;
           ConsoleLog (js "Generated script: " ++ genFile w);
           ConsoleLog (js "Metadata: " ++ metaFile w);
           ConsoleLog (js "Temporary workspace retained at: " ++ tmpRoot w ++
                       js " (contains commands.log)");
           ConsoleLog (js "Tip: review the generated script before running it. It will execute the same shell commands again.") ],
         Exited 0).

(** Lines 96-195: the handler of the child's ['exit'] event. *)
Definition onExit (w : World) (code : option Z) (signal : option jsstring)
  : list Effect * Outcome :=
  let exited := exitedMessage code signal in
  if negb (markerExists w) then
    ([ exited;
       ConsoleLog (js "No save marker found. Nothing will be generated (capture canceled or exited without saving).");
       ConsoleLog (js "Temporary data available at " ++ tmpRoot w ++
                   js " (commands.log may be useful for debugging).") ],
     Exited 0)
  else
    match logText w with
    | None => ([ exited ], Uncaught)
    | Some text =>
        let entries := parseLog text in
        if (List.length entries =? 0)%nat then
          ([ exited;
             ConsoleLog (js "No recorded commands to generate script from.");
             ConsoleLog (js "Commands log: " ++ logFile w) ],
           Exited 0)
        else
          let (written, outcome) := writeArtifact w entries in
          (exited :: written, outcome)
    end.


Section Program.

(** Modelled from the spec: [usageAndExit] of [./utils] is not among the
    sources; the specification says that a missing or unknown subcommand
    "prints usage and exits non-zero", and that the exit code of a spawn
    failure is a distinct one.  Its exit status is a parameter. *)
Variable usage_status : Z.




End Program.

(** The files written by a run, by path. *)
Fixpoint writtenPaths (fx : list Effect) : list jsstring :=
  match fx with
  | [] => []
  | WriteFile p _ _ :: fx' => p :: writtenPaths fx'
  | _ :: fx' => writtenPaths fx'
  end.

(** ** What the generated script does when it is run

    [run] is the function the script defines (lines 161-174); the body of
    the script calls it once per line [run(<literal>);]. *)

Record SpawnSyncResult := mkResult {
  error : bool;            (* r.error is set *)
  status : option Z        (* r.status; null when there is none *)
}.

Record SpawnSyncCall := mkCall {
  call_file : jsstring;
  call_args : list jsstring;
  call_stdio : Stdio
}.

(** [Some st]: the script called [process.exit(st)]; [None]: [run]
    returned. *)
Definition run (sh : SpawnSyncCall -> SpawnSyncResult) (command : jsstring)
  : SpawnSyncCall * option Z :=
  let call := mkCall (js "sh") [js "-c"; command] StdioInherit in
  let r := sh call in
  (call,
   if error r then
     Some (match status r with
           | Some st => if (st =? 0)%Z then 1%Z else st
           | None => 1%Z
           end)
   else
     match status r with
     | Some st => if (st =? 0)%Z then None else Some st
     | None => None
     end).

(** The calls made, in order, and how the replay ended.  The result of a
    call may depend on the calls made before it. *)
Fixpoint replay (sh : list SpawnSyncCall -> SpawnSyncCall -> SpawnSyncResult)
    (done : list SpawnSyncCall) (commands : list jsstring)
  : list SpawnSyncCall * option Z :=
  match commands with
  | [] => (done, None)
  | c :: rest =>
      match run (sh done) c with
      | (call, Some st) => (done ++ [call], Some st)
      | (call, None) => replay sh (done ++ [call]) rest
      end
  end.

(** One line of the script body: [  run(<string literal>);]. *)
Definition invocationOf (line : jsstring) : option jsstring :=
  match expect (js "  run(") line with
  | None => None
  | Some rest =>
      match lexString rest with
      | Some (command, after) =>
          if str_eqb after (js ");") then Some command else None
      | None => None
      end
  end.

Fixpoint invocations (lines : list jsstring) : list jsstring :=
  match lines with
  | [] => []
  | l :: ls =>
      match invocationOf l with
      | Some c => c :: invocations ls
      | None => invocations ls
      end
  end.

Definition runScript (sh : list SpawnSyncCall -> SpawnSyncCall -> SpawnSyncResult)
    (lines : list jsstring) : list SpawnSyncCall * option Z :=
  replay sh [] (invocations lines).

(** ** The wording of the specification, for comparison

    Section 4.4 words the first step as trimming trailing white space
    only. *)
Definition rawLines_trailing_trim (text : jsstring) : list jsstring :=
  filter truthy (split_lines (trimEnd text)).

Definition parsedEntries_trailing_trim (text : jsstring) : list Entry :=
  map parseLine (rawLines_trailing_trim text).

(** [Removed P l l']: [l'] is [l] with exactly the elements that satisfy
    [P] taken out, the others left in place. *)
Inductive Removed {A : Type} (P : A -> Prop) : list A -> list A -> Prop :=
| Removed_nil : Removed P [] []
| Removed_drop x l l' : P x -> Removed P l l' -> Removed P (x :: l) l'
| Removed_keep x l l' : ~ P x -> Removed P l l' -> Removed P (x :: l) (x :: l').

(** The command text begins with the name of the control command. *)
Definition ControlCommand (e : Entry) : Prop :=
  exists rest, cmd e = js "shell2node" ++ rest.

(** A line and the entry read from it: split at the first space, or kept
    whole when it has none. *)
Definition SplitAtFirstSpace (line : jsstring) (e : Entry) : Prop :=
  match ts e with
  | Some t => line = t ++ SPACE :: cmd e /\ ~ In SPACE t
  | None => cmd e = line /\ ~ In SPACE line
  end.

(** The first code unit, when there is one, is not white space. *)
Definition headNotSpace (s : jsstring) : Prop :=
  match s with
  | c :: _ => isWhiteSpace c = false
  | [] => True
  end.

Definition allSpace (s : jsstring) : Prop :=
  Forall (fun c => isWhiteSpace c = true) s.

(** A run used in the examples below: a valid invocation, the shell has
    exited after [shell2node save] (the marker is there), and the log can
    no longer be read. *)
Definition world_unreadable_log : World :=
  mkWorld [js "capture"] (Some (js "/bin/bash")) (js "/tmp/shell2node-Ab12")
          (js "/home/u") (ChildExited (Some 0%Z) None) true None false
          (js "2024-01-01T00:00:00.000Z") (js "2024-01-01T00:00:00.001Z")
          (js "2024-01-01T00:00:00.002Z") false false false.

(** The same run with a readable log of two commands and the save. *)
Definition world_saved : World :=
  mkWorld [js "capture"] (Some (js "/bin/bash")) (js "/tmp/shell2node-Ab12")
          (js "/home/u") (ChildExited (Some 0%Z) None) true
          (Some (js "T1 echo hi" ++ LF :: js "T2 ls" ++ LF ::
                 js "T3 shell2node save" ++ [LF]))
          false
          (js "2024-01-01T00:00:00.000Z") (js "2024-01-01T00:00:00.001Z")
          (js "2024-01-01T00:00:00.002Z") false false false.

(** The call [run] makes for a command, whether a result makes [run] end
    the replay, and the status it then exits with ([r.status || 1], which
    is [r.status] when that is a non-zero number). *)
Definition callOf (command : jsstring) : SpawnSyncCall :=
  mkCall (js "sh") [js "-c"; command] StdioInherit.

Definition stepFails (r : SpawnSyncResult) : bool :=
  error r ||
  match status r with
  | Some st => negb (st =? 0)%Z
  | None => false
  end.

Definition exitOf (r : SpawnSyncResult) : Z :=
  match status r with
  | Some st => if (st =? 0)%Z then 1%Z else st
  | None => 1%Z
  end.

(** The result of step [i] of a replay of [commands], all the steps
    before it having been made. *)
Definition resultAt (sh : list SpawnSyncCall -> SpawnSyncCall -> SpawnSyncResult)
    (commands : list jsstring) (i : nat) : SpawnSyncResult :=
  sh (map callOf (firstn i commands)) (callOf (nth i commands [])).

(** A shell for the examples: the command [false] exits with status 1,
    every other command with status 0. *)
Definition sh_false_fails (_ : list SpawnSyncCall) (c : SpawnSyncCall)
  : SpawnSyncResult :=
  match call_args c with
  | [_; command] =>
      if str_eqb command (js "false") then mkResult false (Some 1%Z)
      else mkResult false (Some 0%Z)
  | _ => mkResult false (Some 0%Z)
  end.

(** The fuel that is enough to read a value back: its number of nodes. *)
Fixpoint weight (v : JSON) : nat :=
  match v with
  | JNull => 1
  | JStr _ => 1
  | JArr items => S (list_sum (map weight items))
  | JObj props => S (list_sum (map (fun kv => weight (snd kv)) props))
  end.

Definition allJSONSpace (s : jsstring) : Prop :=
  Forall (fun c => isJSONSpace c = true) s.

(** The text of the elements of a non-empty array up to and including the
    closing bracket, followed by [rest]; and the same for the properties
    of an object. *)
Fixpoint itemsText (indent stepback : jsstring) (items : list JSON)
    (rest : jsstring) : jsstring :=
  match items with
  | [] => LF :: stepback ++ RBRACKET :: rest
  | [v] => SerializeJSON indent v ++ LF :: stepback ++ RBRACKET :: rest
  | v :: vs =>
      SerializeJSON indent v ++ COMMA :: LF :: indent ++
      itemsText indent stepback vs rest
  end.

Fixpoint propsText (indent stepback : jsstring) (props : list (jsstring * JSON))
    (rest : jsstring) : jsstring :=
  match props with
  | [] => LF :: stepback ++ RBRACE :: rest
  | [kv] =>
      QuoteJSONString (fst kv) ++ COLON :: SPACE ::
      SerializeJSON indent (snd kv) ++ LF :: stepback ++ RBRACE :: rest
  | kv :: kvs =>
      QuoteJSONString (fst kv) ++ COLON :: SPACE ::
      SerializeJSON indent (snd kv) ++ COMMA :: LF :: indent ++
      propsText indent stepback kvs rest
  end.

(** Well-formed UTF-16: every surrogate is half of a pair.  Such a text
    is written to a UTF-8 file without loss. *)
Fixpoint wellFormed (s : jsstring) : bool :=
  match s with
  | [] => true
  | c :: rest =>
      if isLeadSurrogate c then
        match rest with
        | d :: rest' => isTrailSurrogate d && wellFormed rest'
        | [] => false
        end
      else negb (isTrailSurrogate c) && wellFormed rest
  end.

(** A code unit that is neither a line break nor a surrogate. *)
Definition inertUnit (c : N) : Prop :=
  c <> LF /\ c <> CR /\ isLeadSurrogate c = false /\ isTrailSurrogate c = false.

(** A serialized value starts with a quote, a bracket, a brace or the
    [n] of [null]. *)
Definition valueStart (c : N) : Prop :=
  c = DQUOTE \/ c = LBRACKET \/ c = LBRACE \/ c = 110.

(** ** The rc texts ([utils/rcContent.ts])

    Each function is a template literal: fixed lines, with
    [JSON.stringify(logFile)] and [JSON.stringify(markerFile)] interpolated
    in the two [export] lines.  A template is written here as the list of
    its lines, joined by line feeds; it begins and ends with a line feed,
    so its first and last lines are empty. *)

Definition TAB : N := 9.
Definition EM_DASH : N := 0x2014.

(** [generateBashRcContent]: the lines of the template, the two
    interpolated literals left as parameters. *)
Definition bashRcTemplate (logLit markerLit : jsstring) : list jsstring :=
  [ [];
    js "# shell2node temporary rc (auto-generated). Do NOT commit.";
    js "export SHELL2NODE_LOG=" ++ logLit;
    js "export SHELL2NODE_MARKER=" ++ markerLit;
    [];
    js "# Append every command before execution (timestamp + the command)";
    js "trap 'printf " ++ DQUOTE :: js "%s %s\n" ++ DQUOTE :: js " " ++
      DQUOTE :: js "$(date -u +" ++ DQUOTE :: js "%Y-%m-%dT%H:%M:%SZ" ++
      DQUOTE :: js ")" ++ DQUOTE :: js " " ++ DQUOTE :: js "$BASH_COMMAND" ++
      DQUOTE :: js " >> " ++ DQUOTE :: js "$SHELL2NODE_LOG" ++ DQUOTE ::
      js "' DEBUG";
    [];
    js "# Define shell2node helper";
    js "shell2node() {";
    js "  if [ " ++ DQUOTE :: js "$1" ++ DQUOTE :: js " = " ++ DQUOTE ::
      js "save" ++ DQUOTE :: js " ]; then";
    js "    echo " ++ DQUOTE ::
      js "[shell2node] saving capture and exiting..." ++ [DQUOTE];
    js "    touch " ++ DQUOTE :: js "$SHELL2NODE_MARKER" ++ [DQUOTE];
    js "    sleep 0.05";
    js "    exit 0";
    js "  elif [ " ++ DQUOTE :: js "$1" ++ DQUOTE :: js " = " ++ DQUOTE ::
      js "cancel" ++ DQUOTE :: js " ]; then";
    js "    echo " ++ DQUOTE ::
      js "[shell2node] canceling capture and exiting..." ++ [DQUOTE];
    js "    rm -f " ++ DQUOTE :: js "$SHELL2NODE_MARKER" ++ [DQUOTE];
    js "    sleep 0.05";
    js "    exit 0";
    js "  else";
    js "    command shell2node " ++ DQUOTE :: js "$@" ++ [DQUOTE];
    js "  fi";
    js "}";
    [];
    js "# Prompt hint to show capture mode";
    js "if [ -n " ++ DQUOTE :: js "$PS1" ++ DQUOTE :: js " ]; then";
    js "  PS1=" ++ DQUOTE :: js "[shell2node capture] $PS1" ++ [DQUOTE];
    js "fi";
    [] ].

(** [generateZshRcContent] *)
Definition zshRcTemplate (logLit markerLit : jsstring) : list jsstring :=
  [ [];
    TAB :: js "# shell2node temporary zshrc (auto-generated). Do NOT commit.";
    js "export SHELL2NODE_LOG=" ++ logLit;
    js "export SHELL2NODE_MARKER=" ++ markerLit;
    [];
    js "# helper that actually logs a command (used by preexec hook)";
    js "shell2node_preexec() {";
    js "  # $1 is the command about to be executed";
    js "  printf " ++ DQUOTE :: js "%s %s\n" ++ DQUOTE :: js " " ++ DQUOTE ::
      js "$(date -u +" ++ DQUOTE :: js "%Y-%m-%dT%H:%M:%SZ" ++ DQUOTE ::
      js ")" ++ DQUOTE :: js " " ++ DQUOTE :: js "$1" ++ DQUOTE ::
      js " >> " ++ DQUOTE :: js "$SHELL2NODE_LOG" ++ [DQUOTE];
    js "  return 0";
    js "}";
    [];
    js "# Try to register a preexec hook using add-zsh-hook if available for compatibility.";
    js "if typeset -f add-zsh-hook >/dev/null 2>&1; then";
    js "  add-zsh-hook preexec shell2node_preexec";
    js "else";
    js "  # Fallback: define preexec directly (works in many zsh versions)";
    js "  preexec() { shell2node_preexec " ++ DQUOTE :: js "$1" ++ DQUOTE ::
      js "; }";
    js "fi";
    [];
    js "# Define shell2node helper";
    js "shell2node() {";
    js "  if [ " ++ DQUOTE :: js "$1" ++ DQUOTE :: js " = " ++ DQUOTE ::
      js "save" ++ DQUOTE :: js " ]; then";
    js "    echo " ++ DQUOTE ::
      js "[shell2node] saving capture and exiting..." ++ [DQUOTE];
    js "    touch " ++ DQUOTE :: js "$SHELL2NODE_MARKER" ++ [DQUOTE];
    js "    sleep 0.05";
    js "    exit 0";
    js "  elif [ " ++ DQUOTE :: js "$1" ++ DQUOTE :: js " = " ++ DQUOTE ::
      js "cancel" ++ DQUOTE :: js " ]; then";
    js "    echo " ++ DQUOTE ::
      js "[shell2node] canceling capture and exiting..." ++ [DQUOTE];
    js "    rm -f " ++ DQUOTE :: js "$SHELL2NODE_MARKER" ++ [DQUOTE];
    js "    sleep 0.05";
    js "    exit 0";
    js "  else";
    js "    # If a system binary named shell2node exists, defer to it";
    js "    command shell2node " ++ DQUOTE :: js "$@" ++ [DQUOTE];
    js "  fi";
    js "}";
    [];
    js "# Prompt hint to show capture mode";
    js "if [ -n " ++ DQUOTE :: js "$PROMPT" ++ DQUOTE :: js " ]; then";
    js "  PROMPT=" ++ DQUOTE :: js "[shell2node capture] $PROMPT" ++ [DQUOTE];
    js "fi";
    [] ].

(** [generateRcContent] *)
Definition rcTemplate (logLit markerLit : jsstring) : list jsstring :=
  [ [];
    js "# shell2node temporary rc (auto-generated). Do NOT commit.";
    js "export SHELL2NODE_LOG=" ++ logLit;
    js "export SHELL2NODE_MARKER=" ++ markerLit;
    [];
    js "# Append every command before execution (timestamp + the command)";
    js "trap 'printf " ++ DQUOTE :: js "%s %s\n" ++ DQUOTE :: js " " ++
      DQUOTE :: js "$(date -u +" ++ DQUOTE :: js "%Y-%m-%dT%H:%M:%SZ" ++
      DQUOTE :: js ")" ++ DQUOTE :: js " " ++ DQUOTE :: js "$BASH_COMMAND" ++
      DQUOTE :: js " >> " ++ DQUOTE :: js "$SHELL2NODE_LOG" ++ DQUOTE ::
      js "' DEBUG";
    [];
    js "# Define shell2node helper";
    js "shell2node() {";
    js "  if [ " ++ DQUOTE :: js "$1" ++ DQUOTE :: js " = " ++ DQUOTE ::
      js "save" ++ DQUOTE :: js " ]; then";
    TAB :: js "echo " ++ DQUOTE ::
      js "[shell2node] saving capture and exiting..." ++ [DQUOTE];
    TAB :: js "mkdir -p " ++ DQUOTE :: js "$(dirname " ++ DQUOTE ::
      js "$SHELL2NODE_LOG" ++ DQUOTE :: js ")" ++ [DQUOTE];
    TAB :: js "touch " ++ DQUOTE :: js "$SHELL2NODE_MARKER" ++ [DQUOTE];
    TAB :: js "# give the parent some time (not strictly necessary)";
    TAB :: js "sleep 0.05";
    TAB :: js "exit 0";
    js "  elif [ " ++ DQUOTE :: js "$1" ++ DQUOTE :: js " = " ++ DQUOTE ::
      js "cancel" ++ DQUOTE :: js " ]; then";
    TAB :: js "echo " ++ DQUOTE ::
      js "[shell2node] canceling capture and exiting..." ++ [DQUOTE];
    TAB :: js "rm -f " ++ DQUOTE :: js "$SHELL2NODE_MARKER" ++ [DQUOTE];
    TAB :: js "sleep 0.05";
    TAB :: js "exit 0";
    js "  else";
    TAB ::
      js "# fallback to the real command if the user has a system binary named shell2node";
    TAB :: js "command shell2node " ++ DQUOTE :: js "$@" ++ [DQUOTE];
    js "  fi";
    js "}";
    [];
    js "# Prompt hint to show capture mode";
    js "if [ -n " ++ DQUOTE :: js "$PS1" ++ DQUOTE :: js " ]; then";
    js "  PS1=" ++ DQUOTE :: js "[shell2node capture] $PS1" ++ [DQUOTE];
    js "fi";
    [];
    js "# Prevent loading user's heavy rc files to keep behavior predictable,";
    js "# but allow them to source their normal rc manually if needed.";
    js "# (We keep it minimal " ++ EM_DASH ::
      js " this is deliberate for the MLP)";
    [] ].

Definition generateBashRcContent (logFile markerFile : jsstring) : jsstring :=
  join_lines (bashRcTemplate (QuoteJSONString logFile)
                             (QuoteJSONString markerFile)).

Definition generateZshRcContent (logFile markerFile : jsstring) : jsstring :=
  join_lines (zshRcTemplate (QuoteJSONString logFile)
                            (QuoteJSONString markerFile)).

Definition generateRcContent (logFile markerFile : jsstring) : jsstring :=
  join_lines (rcTemplate (QuoteJSONString logFile)
                         (QuoteJSONString markerFile)).

(** The text behind each kind of file body. *)
Definition fileText (b : FileBody) : jsstring :=
  match b with
  | Text s => s
  | BashRcContent l m => generateBashRcContent l m
  | ZshRcContent l m => generateZshRcContent l m
  end.

(** Reading an rc text: the value on the first line of the form
    [export NAME=<string literal>]. *)
Definition exportLine (name line : jsstring) : option jsstring :=
  match expect (js "export " ++ name ++ js "=") line with
  | Some rest =>
      match lexString rest with
      | Some (v, after) => if is_empty after then Some v else None
      | None => None
      end
  | None => None
  end.

Fixpoint exported (name : jsstring) (lines : list jsstring) : option jsstring :=
  match lines with
  | [] => None
  | l :: ls =>
      match exportLine name l with
      | Some v => Some v
      | None => exported name ls
      end
  end.

Definition exportedValue (name rc : jsstring) : option jsstring :=
  exported name (split_lines rc).

(** ** What the hooks append to the log

    Both rc texts log a command with [printf "%s %s\n" <date> <command>]
    appended to the log file. *)
Definition hookLine (stamp command : jsstring) : jsstring :=
  stamp ++ SPACE :: command ++ [LF].

Definition hookLog (commands : list (jsstring * jsstring)) : jsstring :=
  List.concat (map (fun sc => hookLine (fst sc) (snd sc)) commands).

(** [lines.join('\r\n')], for logs with that line ending. *)
Fixpoint join_crlf (ls : list jsstring) : jsstring :=
  match ls with
  | [] => []
  | [l] => l
  | l :: ls' => l ++ CR :: LF :: join_crlf ls'
  end.

(** A line that [split] gives back as it is when a line feed follows it:
    it holds no line feed and does not end with a carriage return. *)
Definition endsWithCR (l : jsstring) : bool :=
  match rev l with c :: _ => c =? CR | [] => false end.

Definition hasLF (l : jsstring) : bool := existsb (N.eqb LF) l.

Definition cleanLine (l : jsstring) : bool := negb (hasLF l) && negb (endsWithCR l).

(** No white space anywhere; a last code unit that is not white space. *)
Definition noSpaceIn (s : jsstring) : Prop :=
  Forall (fun c => isWhiteSpace c = false) s.

Definition lastNotSpace (s : jsstring) : Prop := headNotSpace (rev s).

(** A line of a log that is read back as it was written: not empty, no
    line feed in it, and no white space at its end. *)
Definition solidLine (l : jsstring) : Prop :=
  l <> [] /\ ~ In LF l /\ lastNotSpace l.

(** What the hooks can log and the parser reads back: a time stamp with
    no white space in it, a command that is not empty, holds no line feed
    and does not end with white space. *)
Definition loggable (sc : jsstring * jsstring) : Prop :=
  fst sc <> [] /\ noSpaceIn (fst sc) /\
  snd sc <> [] /\ ~ In LF (snd sc) /\ lastNotSpace (snd sc).


Definition isDigit (c : N) : Prop := 48 <= c <= 57.

(** The line a hook writes for a command, without its line feed, and the
    entry the parser is meant to read from it. *)
Definition loggedLine (sc : jsstring * jsstring) : jsstring :=
  fst sc ++ SPACE :: snd sc.

Definition loggedEntry (sc : jsstring * jsstring) : Entry :=
  mkEntry (Some (fst sc)) (snd sc).

Definition notControl (sc : jsstring * jsstring) : bool :=
  negb (startsWith (snd sc) (js "shell2node")).

(** The execute bits of a mode, 0o111. *)
Definition MODE_0111 : Z := 0x49.


(** A shell for the examples: the command [kill -9 $$] is ended by a
    signal (no exit status, no spawn error), every other command exits
    with status 0. *)
Definition sh_signal_killed (_ : list SpawnSyncCall) (c : SpawnSyncCall)
  : SpawnSyncResult :=
  match call_args c with
  | [_; command] =>
      if str_eqb command (js "kill -9 $$") then mkResult false None
      else mkResult false (Some 0%Z)
  | _ => mkResult false (Some 0%Z)
  end.

(** A run whose environment has no [SHELL]. *)
Definition world_no_SHELL : World :=
  mkWorld [js "capture"] None (js "/tmp/shell2node-Ab12")
          (js "/home/u") (ChildExited (Some 0%Z) None) false None false
          (js "2024-01-01T00:00:00.000Z") (js "2024-01-01T00:00:00.001Z")
          (js "2024-01-01T00:00:00.002Z") false false false.

(** ** The artifact when a file-system call throws *)

(** Whether one of the three file-system calls of the artifact throws;
    the directory is only created when it does not exist. *)
Definition artifactFails (w : World) : bool :=
  (negb (outDirExists w) && mkdirThrows w) ||
  metaWriteThrows w || scriptWriteThrows w.

(** The artifact files that get written once an entry is retained. *)
Definition artifactPaths (w : World) : list jsstring :=
  if (negb (outDirExists w) && mkdirThrows w) || metaWriteThrows w then []
  else if scriptWriteThrows w then [ metaFile w ]
  else [ metaFile w; genFile w ].

(** A saved run in a directory where [generated] cannot be created. *)
Definition world_readonly_cwd : World :=
  mkWorld [js "capture"] (Some (js "/bin/bash")) (js "/tmp/shell2node-Ab12")
          (js "/") (ChildExited (Some 0%Z) None) true
          (Some (js "T1 echo hi" ++ LF :: js "T2 ls" ++ LF ::
                 js "T3 shell2node save" ++ [LF]))
          false
          (js "2024-01-01T00:00:00.000Z") (js "2024-01-01T00:00:00.001Z")
          (js "2024-01-01T00:00:00.002Z") true false false.

(** ** Reading the script file as the program it is

    The text of the replay script is read from its first character: three
    [//] comments, each up to its line terminator; then, to the letter,
    the import, the definition of [run] and the opening of the body
    (lines 157-176 of the source); then the calls [  run(<literal>);],
    one to a line; then the closing [})();].  A text of that form is the
    program that calls [run], as defined there, on each command in
    turn. *)

Definition isLineTerminator (c : N) : bool :=
  (c =? LF) || (c =? CR) || (c =? 0x2028) || (c =? 0x2029).

Definition noLineTerminator (s : jsstring) : Prop :=
  Forall (fun c => isLineTerminator c = false) s.

(** A [//] comment runs up to the first line terminator. *)
Fixpoint afterComment (s : jsstring) : jsstring :=
  match s with
  | c :: rest => if isLineTerminator c then s else afterComment rest
  | [] => []
  end.

(** One comment line, ended by a line feed. *)
Definition skipCommentLine (s : jsstring) : option jsstring :=
  match expect (js "//") s with
  | Some body =>
      match afterComment body with
      | c :: rest => if c =? LF then Some rest else None
      | [] => None
      end
  | None => None
  end.

Definition scriptFixedPart : jsstring :=
  join_lines
    [ [];
      js "import { spawnSync } from 'child_process' ";
      [];
      js "function run(cmd) {";
      js "  console.log('> ' + cmd);";
      js "  const r = spawnSync('sh', ['-c', cmd], { stdio: 'inherit' });";
      js "  if (r.error) {";
      js "    console.error('Failed to run command:', r.error);";
      js "    process.exit(r.status || 1);";
      js "  }";
      js "  if (r.status && r.status !== 0) {";
      js "    console.error('Command exited with code', r.status);";
      js "    process.exit(r.status);";
      js "  }";
      js "}";
      [];
      js "(async () => {" ] ++ [LF].

(** The calls of the body, up to the closing line, which ends the text. *)
Fixpoint parseBody (fuel : nat) (s : jsstring) : option (list jsstring) :=
  match fuel with
  | O => None
  | S fuel =>
      if str_eqb s (js "})();") then Some []
      else
        match expect (js "  run(") s with
        | None => None
        | Some rest =>
            match lexString rest with
            | None => None
            | Some (command, after) =>
                match expect (js ");" ++ [LF]) after with
                | None => None
                | Some rest' =>
                    match parseBody fuel rest' with
                    | Some commands => Some (command :: commands)
                    | None => None
                    end
                end
            end
        end
  end.

(** The commands a script text calls [run] on, in order, when the text is
    a replay script. *)
Definition parseScript (text : jsstring) : option (list jsstring) :=
  match skipCommentLine text with
  | None => None
  | Some s1 =>
      match skipCommentLine s1 with
      | None => None
      | Some s2 =>
          match skipCommentLine s2 with
          | None => None
          | Some s3 =>
              match expect scriptFixedPart s3 with
              | None => None
              | Some body => parseBody (S (List.length body)) body
              end
          end
      end
  end.

(** Running a script text: the calls made and how it ended, when the text
    is a replay script. *)
Definition runScriptText
    (sh : list SpawnSyncCall -> SpawnSyncCall -> SpawnSyncResult)
    (text : jsstring) : option (list SpawnSyncCall * option Z) :=
  match parseScript text with
  | Some commands => Some (replay sh [] commands)
  | None => None
  end.

(** The text of the body of a script: its calls and the closing line. *)
Fixpoint bodyText (es : list Entry) : jsstring :=
  match es with
  | [] => js "})();"
  | e :: es' => runLine e ++ LF :: bodyText es'
  end.

(** ** Reading the metadata back from a parsed document *)

Fixpoint lookupField (k : jsstring) (props : list (jsstring * JSON))
  : option JSON :=
  match props with
  | [] => None
  | kv :: ps => if str_eqb (fst kv) k then Some (snd kv) else lookupField k ps
  end.

(** [v[k]] for an object. *)
Definition field (k : jsstring) (v : JSON) : option JSON :=
  match v with
  | JObj props => lookupField k props
  | _ => None
  end.

(** [{ts, cmd}] as an entry. *)
Definition entryOfJSON (v : JSON) : option Entry :=
  match field (js "ts") v, field (js "cmd") v with
  | Some JNull, Some (JStr c) => Some (mkEntry None c)
  | Some (JStr t), Some (JStr c) => Some (mkEntry (Some t) c)
  | _, _ => None
  end.

Fixpoint entriesOfJSON (items : list JSON) : option (list Entry) :=
  match items with
  | [] => Some []
  | v :: vs =>
      match entryOfJSON v, entriesOfJSON vs with
      | Some e, Some es => Some (e :: es)
      | _, _ => None
      end
  end.

(** [meta.entries] of a parsed metadata document. *)
Definition metaEntries (v : JSON) : option (list Entry) :=
  match field (js "entries") v with
  | Some (JArr items) => entriesOfJSON items
  | _ => None
  end.

(** Three more saved runs for the examples: one whose first command
    fails when replayed, one whose command holds quotes and a backtick,
    and one whose last line is a time stamp with nothing after it. *)
Definition world_replay : World :=
  mkWorld [js "capture"] (Some (js "/bin/bash")) (js "/tmp/shell2node-Ab12")
          (js "/home/u") (ChildExited (Some 0%Z) None) true
          (Some (js "T1 false" ++ LF :: js "T2 echo after" ++ LF ::
                 js "T3 shell2node save" ++ [LF]))
          true
          (js "2024-01-01T00:00:00.000Z") (js "2024-01-01T00:00:00.001Z")
          (js "2024-01-01T00:00:00.002Z") false false false.

Definition quotedCommand : jsstring :=
  js "echo " ++ DQUOTE :: js "a`b'c" ++ [DQUOTE; BACKSLASH; CR; 0x2028].

Definition world_quoting : World :=
  mkWorld [js "capture"] (Some (js "/bin/zsh")) (js "/tmp/shell2node-Ab12")
          (js "/home/u") (ChildExited (Some 0%Z) None) true
          (Some (js "T1 " ++ quotedCommand ++ LF :: js "T2 shell2node save" ++ [LF]))
          false
          (js "2024-01-01T00:00:00.000Z") (js "2024-01-01T00:00:00.001Z")
          (js "2024-01-01T00:00:00.002Z") false false false.


(** * Properties *)

Example parseLog_demo :
  parseLog (js "T1 echo hi" ++ LF :: js "T2 ls" ++ LF :: js "T3 shell2node save" ++ [LF])
  = [mkEntry (Some (js "T1")) (js "echo hi"); mkEntry (Some (js "T2")) (js "ls")].
Proof. vm_compute. reflexivity. Qed.

Example parseLog_no_space :
  parseLog (js "lonely") = [mkEntry None (js "lonely")].
Proof. vm_compute. reflexivity. Qed.

Example parseLog_prefix_sharing :
  parseLog (js "T1 shell2node-extra --flag" ++ LF :: js "T2 ls") =
  [mkEntry (Some (js "T2")) (js "ls")].
Proof. vm_compute. reflexivity. Qed.

Example basename_demo :
  basename (js "/usr/local/bin/Zsh/") = js "Zsh" /\
  shellBase (js "/usr/local/bin/Zsh/") = js "zsh" /\
  basename (js "/") = [] /\ basename (js "bash") = js "bash".
Proof. vm_compute. repeat split. Qed.

Example runLine_demo :
  runLine (mkEntry (Some (js "T1")) (js "echo " ++ DQUOTE :: js "a b" ++ [DQUOTE; LF]))
  = js "  run(" ++ DQUOTE :: js "echo \" ++ DQUOTE :: js "a b\" ++ DQUOTE ::
    js "\n" ++ DQUOTE :: js ");".
Proof. vm_compute. reflexivity. Qed.

Example split_crlf :
  split_lines (js "a" ++ CR :: LF :: js "b" ++ LF :: LF :: js "c" ++ [CR])
  = [js "a"; js "b"; []; js "c" ++ [CR]].
Proof. vm_compute. reflexivity. Qed.

Example quote_demo :
  QuoteJSONString (js "a" ++ DQUOTE :: LF :: 1 :: 0xD800 :: 0xD83D :: 0xDE00 :: [BACKSLASH])
  = DQUOTE :: js "a\" ++ DQUOTE :: js "\n\u0001\ud800" ++
    0xD83D :: 0xDE00 :: BACKSLASH :: BACKSLASH :: [DQUOTE].
Proof. vm_compute. reflexivity. Qed.

(** ** Reading back what [QuoteJSONString] wrote *)

Lemma hexVal_hexDigit (x : N) : x < 16 -> hexVal (hexDigit x) = Some x.
Proof.
  intros H.
  assert (E : x = 0 \/ x = 1 \/ x = 2 \/ x = 3 \/ x = 4 \/ x = 5 \/ x = 6 \/
              x = 7 \/ x = 8 \/ x = 9 \/ x = 10 \/ x = 11 \/ x = 12 \/
              x = 13 \/ x = 14 \/ x = 15) by lia.
  repeat (destruct E as [-> | E]; [reflexivity |]).
  subst x. reflexivity.
Qed.

Lemma hex_recompose (c : N) :
  c < 65536 ->
  c / 4096 * 4096 + (c / 256) mod 16 * 256 + (c / 16) mod 16 * 16 + c mod 16 = c.
Proof.
  intros H.
  pose proof (N.div_mod c 16 ltac:(discriminate)) as E0.
  pose proof (N.div_mod (c / 16) 16 ltac:(discriminate)) as E1.
  pose proof (N.div_mod (c / 256) 16 ltac:(discriminate)) as E2.
  replace (c / 16 / 16) with (c / 256) in E1
    by (rewrite N.Div0.div_div; reflexivity).
  replace (c / 256 / 16) with (c / 4096) in E2
    by (rewrite N.Div0.div_div; reflexivity).
  lia.
Qed.

Lemma lexBody_UnicodeEscape (c : N) (rest : jsstring) :
  c < 65536 ->
  lexBody (UnicodeEscape c ++ rest) = consValue c (lexBody rest).
Proof.
  intros H.
  assert (H3 : c / 4096 < 16) by (apply N.Div0.div_lt_upper_bound; lia).
  assert (H2 : (c / 256) mod 16 < 16) by (apply N.mod_lt; discriminate).
  assert (H1 : (c / 16) mod 16 < 16) by (apply N.mod_lt; discriminate).
  assert (H0 : c mod 16 < 16) by (apply N.mod_lt; discriminate).
  unfold UnicodeEscape.
  cbn [app lexBody].
  change (BACKSLASH =? DQUOTE) with false.
  change (BACKSLASH =? BACKSLASH) with true.
  change (117 =? 117) with true.
  cbv iota.
  rewrite !hexVal_hexDigit by assumption.
  rewrite hex_recompose by assumption.
  reflexivity.
Qed.

Lemma lexBody_plain (c : N) (rest : jsstring) :
  (c =? DQUOTE) = false -> (c =? BACKSLASH) = false -> (c <? 32) = false ->
  lexBody (c :: rest) = consValue c (lexBody rest).
Proof. intros H1 H2 H3. cbn [lexBody]. rewrite H1, H2, H3. reflexivity. Qed.

Lemma surrogate_plain (c : N) :
  isLeadSurrogate c || isTrailSurrogate c = true ->
  (c =? DQUOTE) = false /\ (c =? BACKSLASH) = false /\ (c <? 32) = false /\
  c < 65536.
Proof.
  unfold isLeadSurrogate, isTrailSurrogate, DQUOTE, BACKSLASH. intros H.
  apply orb_true_iff in H. rewrite !andb_true_iff, !N.leb_le in H.
  repeat split; try apply N.eqb_neq; try apply N.ltb_ge; lia.
Qed.

Lemma lexBody_quoteUnit (c : N) (rest : jsstring) :
  lexBody (quoteUnit c ++ rest) = consValue c (lexBody rest).
Proof.
  unfold quoteUnit.
  destruct (c =? 8) eqn:E8; [apply N.eqb_eq in E8; subst; reflexivity |].
  destruct (c =? 9) eqn:E9; [apply N.eqb_eq in E9; subst; reflexivity |].
  destruct (c =? 10) eqn:E10; [apply N.eqb_eq in E10; subst; reflexivity |].
  destruct (c =? 12) eqn:E12; [apply N.eqb_eq in E12; subst; reflexivity |].
  destruct (c =? 13) eqn:E13; [apply N.eqb_eq in E13; subst; reflexivity |].
  destruct (c =? DQUOTE) eqn:EQ; [apply N.eqb_eq in EQ; subst; reflexivity |].
  destruct (c =? BACKSLASH) eqn:EB; [apply N.eqb_eq in EB; subst; reflexivity |].
  destruct (c <? 32) eqn:E32; cbn [orb].
  - apply lexBody_UnicodeEscape. apply N.ltb_lt in E32. lia.
  - destruct (isLeadSurrogate c || isTrailSurrogate c) eqn:ES.
    + apply lexBody_UnicodeEscape. apply surrogate_plain in ES. tauto.
    + now apply lexBody_plain.
Qed.

Lemma quoteBody_cons2 (c d : N) (s : jsstring) :
  quoteBody (c :: d :: s) =
  if isLeadSurrogate c && isTrailSurrogate d then c :: d :: quoteBody s
  else quoteUnit c ++ quoteBody (d :: s).
Proof. reflexivity. Qed.

Lemma lexBody_quoteBody_bounded (n : nat) :
  forall s rest, (List.length s <= n)%nat ->
    lexBody (quoteBody s ++ DQUOTE :: rest) = Some (s, rest).
Proof.
  induction n as [| n IH]; intros s rest Hn.
  - destruct s; [reflexivity | cbn in Hn; lia].
  - destruct s as [| c [| d s']]; [reflexivity | |]; cbn [List.length] in Hn.
    + cbn [quoteBody]. rewrite lexBody_quoteUnit. reflexivity.
    + rewrite quoteBody_cons2.
      destruct (isLeadSurrogate c && isTrailSurrogate d) eqn:EP.
      * apply andb_true_iff in EP as [Ec Ed].
        assert (Pc := surrogate_plain c ltac:(rewrite Ec; reflexivity)).
        assert (Pd := surrogate_plain d ltac:(rewrite Ed; apply orb_true_r)).
        cbn [app].
        rewrite lexBody_plain by tauto.
        rewrite lexBody_plain by tauto.
        rewrite IH by lia. reflexivity.
      * rewrite <- app_assoc, lexBody_quoteUnit.
        rewrite IH by (cbn [List.length]; lia). reflexivity.
Qed.

(** Whatever follows the literal, reading it gives the quoted string back
    and stops right after the closing quote. *)
Lemma lexString_QuoteJSONString (s rest : jsstring) :
  lexString (QuoteJSONString s ++ rest) = Some (s, rest).
Proof.
  unfold QuoteJSONString, lexString. cbn [app].
  change (DQUOTE =? DQUOTE) with true. cbv iota.
  rewrite <- app_assoc. cbn [app].
  apply (lexBody_quoteBody_bounded (List.length s)). lia.
Qed.

Example stringify_demo :
  JSON_parse 10 (JSON_stringify_2 (JObj [(js "a", JArr [JStr (js "x"); JNull; JArr []]); (js "b", JObj [])]))
  = Some (JObj [(js "a", JArr [JStr (js "x"); JNull; JArr []]); (js "b", JObj [])]).
Proof. vm_compute. reflexivity. Qed.

(** ** Splitting a line *)

Lemma indexOf_range (s : jsstring) (c : N) :
  (-1 <= indexOf s c < Z.of_nat (List.length s))%Z.
Proof.
  induction s as [| x s IH]; cbn [indexOf List.length]; [lia |].
  destruct (x =? c); [lia |].
  destruct (indexOf s c =? -1)%Z eqn:E; lia.
Qed.

Lemma indexOf_absent (s : jsstring) (c : N) :
  indexOf s c = (-1)%Z <-> ~ In c s.
Proof.
  induction s as [| x s IH]; cbn [indexOf In]; [tauto |].
  destruct (x =? c) eqn:E.
  - apply N.eqb_eq in E. split; [discriminate | tauto].
  - apply N.eqb_neq in E.
    pose proof (indexOf_range s c).
    destruct (indexOf s c =? -1)%Z eqn:E1.
    + apply Z.eqb_eq in E1. tauto.
    + apply Z.eqb_neq in E1. split; [lia | tauto].
Qed.

Lemma indexOf_first (pre post : jsstring) (c : N) :
  ~ In c pre -> indexOf (pre ++ c :: post) c = Z.of_nat (List.length pre).
Proof.
  induction pre as [| x pre IH]; intros H; cbn [app indexOf List.length].
  - rewrite N.eqb_refl. reflexivity.
  - cbn [In] in H.
    destruct (x =? c) eqn:E; [apply N.eqb_eq in E; tauto |].
    rewrite IH by tauto.
    destruct (Z.of_nat (List.length pre) =? -1)%Z eqn:E1; [apply Z.eqb_eq in E1 |]; lia.
Qed.

Lemma indexOf_present (s : jsstring) (c : N) :
  indexOf s c <> (-1)%Z ->
  exists pre post, s = pre ++ c :: post /\ ~ In c pre.
Proof.
  induction s as [| x s IH]; cbn [indexOf]; [tauto |].
  destruct (x =? c) eqn:E.
  - apply N.eqb_eq in E. subst x. intros _. exists [], s. cbn. tauto.
  - apply N.eqb_neq in E.
    destruct (indexOf s c =? -1)%Z eqn:E1; [tauto |].
    apply Z.eqb_neq in E1. intros _.
    destruct (IH E1) as (pre & post & -> & Hpre).
    exists (x :: pre), post. cbn [app In]. split; [reflexivity | tauto].
Qed.

Lemma slice_before (pre post : jsstring) (c : N) :
  slice (pre ++ c :: post) 0 (Some (Z.of_nat (List.length pre))) = pre.
Proof.
  unfold slice, clamp_index. rewrite length_app. cbn [List.length].
  replace (0 <? 0)%Z with false by reflexivity.
  destruct (Z.of_nat (List.length pre) <? 0)%Z eqn:E; [apply Z.ltb_lt in E; lia |].
  rewrite Z.min_l, Z.min_l by lia.
  cbn [Z.to_nat skipn]. rewrite Z.sub_0_r, Z.max_l, Nat2Z.id by lia.
  rewrite firstn_app, firstn_all, Nat.sub_diag. cbn. apply app_nil_r.
Qed.

Lemma slice_after (pre post : jsstring) (c : N) :
  slice (pre ++ c :: post) (Z.of_nat (List.length pre) + 1) None = post.
Proof.
  unfold slice, clamp_index. rewrite length_app. cbn [List.length].
  destruct (Z.of_nat (List.length pre) + 1 <? 0)%Z eqn:E; [apply Z.ltb_lt in E; lia |].
  rewrite Z.min_l by lia.
  replace (Z.to_nat (Z.of_nat (List.length pre) + 1)) with (List.length pre + 1)%nat by lia.
  replace (pre ++ c :: post) with ((pre ++ [c]) ++ post)
    by (rewrite <- app_assoc; reflexivity).
  rewrite skipn_app.
  rewrite skipn_all2 by (rewrite length_app; cbn; lia).
  rewrite length_app. cbn [List.length app].
  replace (List.length pre + 1 - (List.length pre + 1))%nat with 0%nat by lia.
  cbn [skipn].
  apply firstn_all2. lia.
Qed.

Lemma parseLine_no_space (line : jsstring) :
  ~ In SPACE line -> parseLine line = mkEntry None line.
Proof.
  intros H. unfold parseLine.
  apply indexOf_absent in H. rewrite H. reflexivity.
Qed.

Lemma parseLine_first_space (pre post : jsstring) :
  ~ In SPACE pre ->
  parseLine (pre ++ SPACE :: post) = mkEntry (Some pre) post.
Proof.
  intros H. unfold parseLine. cbv zeta.
  rewrite indexOf_first by assumption.
  destruct (Z.of_nat (List.length pre) =? -1)%Z eqn:E; [apply Z.eqb_eq in E; lia |].
  rewrite slice_before, slice_after. reflexivity.
Qed.

Lemma parseLine_split (line : jsstring) :
  SplitAtFirstSpace line (parseLine line).
Proof.
  destruct (Z.eq_dec (indexOf line SPACE) (-1)) as [E | E].
  - apply indexOf_absent in E. rewrite parseLine_no_space by assumption.
    cbn. tauto.
  - destruct (indexOf_present _ _ E) as (pre & post & -> & Hpre).
    rewrite parseLine_first_space by assumption. cbn. tauto.
Qed.

(** ** Trimming *)

Lemma trimStart_spec (s : jsstring) :
  exists l, s = l ++ trimStart s /\ allSpace l /\ headNotSpace (trimStart s).
Proof.
  induction s as [| c s (l & E & Hl & Hh)]; cbn [trimStart].
  - exists []. repeat split. constructor.
  - destruct (isWhiteSpace c) eqn:Ec.
    + exists (c :: l). cbn [app]. rewrite <- E.
      repeat split; [constructor |]; assumption.
    + exists []. repeat split; [constructor | exact Ec].
Qed.

Lemma trimEnd_spec (s : jsstring) :
  exists r, s = trimEnd s ++ r /\ allSpace r /\ headNotSpace (rev (trimEnd s)).
Proof.
  destruct (trimStart_spec (rev s)) as (l & E & Hl & Hh).
  exists (rev l). unfold trimEnd. rewrite rev_involutive. repeat split.
  - rewrite <- rev_app_distr, <- E. symmetry. apply rev_involutive.
  - apply Forall_rev. exact Hl.
  - exact Hh.
Qed.

Lemma trim_spec (s : jsstring) :
  exists l r, s = l ++ trim s ++ r /\ allSpace l /\ allSpace r /\
              headNotSpace (trim s) /\ headNotSpace (rev (trim s)).
Proof.
  destruct (trimStart_spec s) as (l & El & Hl & Hh).
  destruct (trimEnd_spec (trimStart s)) as (r & Er & Hr & Ht).
  exists l, r. unfold trim. repeat split; try assumption.
  - rewrite <- Er. exact El.
  - rewrite Er in Hh. destruct (trimEnd (trimStart s)); [exact I | exact Hh].
Qed.

(** ** The filter *)

Lemma startsWith_iff (s p : jsstring) :
  startsWith s p = true <-> exists rest, s = p ++ rest.
Proof.
  revert s. induction p as [| y p IH]; intros s; cbn [startsWith].
  - split; [intros _; exists s; reflexivity | reflexivity].
  - destruct s as [| x s].
    + split; [discriminate | intros (rest & E); discriminate].
    + rewrite andb_true_iff, N.eqb_eq, IH. cbn [app]. split.
      * intros (-> & rest & ->). exists rest. reflexivity.
      * intros (rest & E). injection E as -> ->. eauto.
Qed.

Lemma discard_iff (e : Entry) :
  keep e = false <-> cmd e = [] \/ ControlCommand e.
Proof.
  unfold keep, ControlCommand, truthy.
  rewrite andb_false_iff, !negb_false_iff, startsWith_iff.
  destruct (cmd e); cbn [is_empty]; intuition congruence.
Qed.

Lemma filter_Removed {A : Type} (P : A -> Prop) (f : A -> bool) (l : list A) :
  (forall x, f x = false <-> P x) -> Removed P l (filter f l).
Proof.
  intros Hf. induction l as [| x l IH]; cbn [filter]; [constructor |].
  destruct (f x) eqn:E.
  - apply Removed_keep; [| exact IH].
    intros Px. apply Hf in Px. congruence.
  - apply Removed_drop; [apply Hf, E | exact IH].
Qed.

(** ** The invocations of the generated script *)

Lemma str_eqb_eq (a b : jsstring) : str_eqb a b = true <-> a = b.
Proof.
  revert b. induction a as [| x a IH]; intros [| y b]; cbn [str_eqb];
    try (split; [discriminate | congruence]); [tauto |].
  rewrite andb_true_iff, N.eqb_eq, IH. split; [intros []; congruence |].
  intros E. injection E as -> ->. tauto.
Qed.

Lemma expect_app (p s : jsstring) : expect p (p ++ s) = Some s.
Proof.
  unfold expect.
  replace (startsWith (p ++ s) p) with true
    by (symmetry; apply startsWith_iff; eauto).
  f_equal. induction p as [| x p IH]; [reflexivity | exact IH].
Qed.

Lemma invocationOf_runLine (e : Entry) :
  invocationOf (runLine e) = Some (cmd e).
Proof.
  unfold invocationOf, runLine.
  rewrite expect_app, lexString_QuoteJSONString.
  reflexivity.
Qed.

Lemma invocations_prologue (n : nat) (d : jsstring) (rest : list jsstring) :
  invocations (scriptPrologue n d ++ rest) = invocations rest.
Proof. reflexivity. Qed.

Lemma invocations_runLines (es : list Entry) (rest : list jsstring) :
  invocations (map runLine es ++ rest) = map cmd es ++ invocations rest.
Proof.
  induction es as [| e es IH]; [reflexivity |].
  cbn [map app invocations]. rewrite invocationOf_runLine, IH. reflexivity.
Qed.

Lemma invocations_scriptLines (d : jsstring) (es : list Entry) :
  invocations (scriptLines d es) = map cmd es.
Proof.
  unfold scriptLines.
  rewrite invocations_prologue, invocations_runLines.
  cbn. apply app_nil_r.
Qed.

Lemma kept_command_not_empty (text : jsstring) (e : Entry) :
  In e (parseLog text) -> cmd e <> [].
Proof.
  unfold parseLog. rewrite filter_In. intros [_ K] E.
  unfold keep in K. rewrite E in K. discriminate.
Qed.

(** ** Splitting into lines *)

Lemma split_lines_cases (c : N) (rest : jsstring) :
  (c = LF /\ split_lines (c :: rest) = [] :: split_lines rest) \/
  (exists rest', c = CR /\ rest = LF :: rest' /\
                 split_lines (c :: rest) = [] :: split_lines rest') \/
  (c <> LF /\
   exists l ls, split_lines rest = l :: ls /\
                split_lines (c :: rest) = (c :: l) :: ls).
Proof.
  cbn [split_lines]. destruct (c =? LF) eqn:E.
  - left. apply N.eqb_eq in E. tauto.
  - apply N.eqb_neq in E. destruct rest as [| d rest'].
    + right. right. split; [exact E |]. exists [], []. split; reflexivity.
    + destruct ((c =? CR) && (d =? LF)) eqn:E2.
      * apply andb_true_iff in E2 as [Ec Ed].
        apply N.eqb_eq in Ec, Ed. subst. right. left. eauto.
      * right. right. split; [exact E |].
        destruct (split_lines (d :: rest')) as [| l ls] eqn:S; [| eauto].
        exfalso. revert S. cbn [split_lines].
        destruct (d =? LF); [discriminate |].
        destruct rest' as [| d' r]; [discriminate |].
        destruct ((d =? CR) && (d' =? LF)); [discriminate |].
        destruct (split_lines (d' :: r)); discriminate.
Qed.

(** No line holds a line feed, and there is always at least one piece. *)
Lemma split_lines_no_LF_bounded (n : nat) :
  forall s, (List.length s <= n)%nat ->
    Forall (fun l => ~ In LF l) (split_lines s) /\ split_lines s <> [].
Proof.
  induction n as [| n IH]; intros s Hn.
  - destruct s; [| cbn in Hn; lia].
    split; [repeat constructor; tauto | discriminate].
  - destruct s as [| c rest]; [split; [repeat constructor; tauto | discriminate] |].
    cbn [List.length] in Hn.
    destruct (split_lines_cases c rest)
      as [(_ & ->) | [(rest' & _ & -> & ->) | (Hc & l & ls & E & ->)]].
    + destruct (IH rest ltac:(lia)) as [F _].
      split; [constructor; [tauto | exact F] | discriminate].
    + destruct (IH rest' ltac:(cbn [List.length] in Hn; lia)) as [F _].
      split; [constructor; [tauto | exact F] | discriminate].
    + destruct (IH rest ltac:(lia)) as [F _]. rewrite E in F.
      apply Forall_cons_iff in F as [Fl Fls].
      split; [| discriminate]. constructor; [| exact Fls].
      cbn [In]. intros [H | H]; [congruence | tauto].
Qed.

Lemma rawLines_no_LF (text : jsstring) :
  Forall (fun line => line <> [] /\ ~ In LF line) (rawLines text).
Proof.
  unfold rawLines. apply Forall_forall. intros line H.
  apply filter_In in H as [H T].
  destruct (split_lines_no_LF_bounded _ (trim text) (le_n _)) as [F _].
  rewrite Forall_forall in F. split; [now destruct line | now apply F].
Qed.

(** ** Claims on the log parser *)

(** C3 (as amended): [parseLog] is total.  The log text is trimmed at both
    ends ([text = l ++ trim text ++ r] with [l] and [r] white space and no
    white space at either end of what is left), split into lines, and the
    empty lines are dropped (no line is empty or holds a line feed); every
    remaining line yields exactly one
    entry: the line split at its first space into timestamp and command
    text, or, when the line has no space, a null timestamp and the whole
    line as command text. *)
Theorem parseLog_total_split (text : jsstring) :
  (exists l r, text = l ++ trim text ++ r /\ allSpace l /\ allSpace r /\
               headNotSpace (trim text) /\ headNotSpace (rev (trim text))) /\
  rawLines text = filter truthy (split_lines (trim text)) /\
  Forall (fun line => line <> [] /\ ~ In LF line) (rawLines text) /\
  Forall2 SplitAtFirstSpace (rawLines text) (parsedEntries text).
Proof.
  split; [apply trim_spec |]. split; [reflexivity |]. split.
  - apply rawLines_no_LF.
  - unfold parsedEntries.
    induction (rawLines text) as [| line ls IH]; cbn [map]; constructor.
    + apply parseLine_split.
    + exact IH.
Qed.

(** C3, as stated, fails: with only trailing white space trimmed, the log
    [" a b"] would give the entry with the empty timestamp and the command
    ["a b"]; the program trims the leading space as well and gives the
    timestamp ["a"] and the command ["b"]. *)
Lemma parseLog_leading_space_counterexample :
  parsedEntries (js " a b") = [mkEntry (Some (js "a")) (js "b")] /\
  parsedEntries_trailing_trim (js " a b") = [mkEntry (Some []) (js "a b")] /\
  parsedEntries (js " a b") <> parsedEntries_trailing_trim (js " a b").
Proof.
  split; [vm_compute; reflexivity |].
  split; [vm_compute; reflexivity |].
  vm_compute. discriminate.
Qed.

(** C4 (as amended): the entries that are discarded are exactly those
    whose command text is empty or begins with ['shell2node'] (a prefix
    match: whatever follows the name); the others are retained in their
    original relative order. *)
Theorem filter_discards_empty_and_control (text : jsstring) :
  Removed (fun e => cmd e = [] \/ ControlCommand e)
          (parsedEntries text) (parseLog text).
Proof. apply filter_Removed. exact discard_iff. Qed.

(** C4, as stated, fails: in the log ["T1 " / "T2 ls"] the first entry has
    an empty command text, which does not begin with the control-command
    name, and it is discarded all the same. *)
Lemma filter_empty_command_counterexample :
  let text := js "T1 " ++ LF :: js "T2 ls" in
  let e := mkEntry (Some (js "T1")) [] in
  In e (parsedEntries text) /\ ~ ControlCommand e /\ ~ In e (parseLog text).
Proof.
  cbv zeta. split; [vm_compute; tauto |]. split.
  - intros (rest & E). discriminate E.
  - intros H. apply kept_command_not_empty in H. apply H. reflexivity.
Qed.




(** ** Claims on the exit handler and the exit status *)

Lemma onExit_not_saved (w : World) code signal :
  markerExists w = false ->
  writtenPaths (fst (onExit w code signal)) = [] /\
  snd (onExit w code signal) = Exited 0.
Proof. intros H. unfold onExit. rewrite H. cbn. tauto. Qed.

Lemma onExit_unreadable (w : World) code signal :
  markerExists w = true -> logText w = None ->
  onExit w code signal = ([exitedMessage code signal], Uncaught).
Proof. intros H1 H2. unfold onExit. rewrite H1, H2. reflexivity. Qed.

Lemma onExit_no_entries (w : World) code signal text :
  markerExists w = true -> logText w = Some text -> parseLog text = [] ->
  writtenPaths (fst (onExit w code signal)) = [] /\
  snd (onExit w code signal) = Exited 0 /\
  In (ConsoleLog (js "No recorded commands to generate script from."))
     (fst (onExit w code signal)).
Proof.
  intros H1 H2 H3. unfold onExit. rewrite H1, H2, H3. cbn. tauto.
Qed.

Lemma artifactFails_false (w : World) :
  artifactFails w = false <->
  (outDirExists w = true \/ mkdirThrows w = false) /\
  metaWriteThrows w = false /\ scriptWriteThrows w = false.
Proof.
  unfold artifactFails.
  destruct (outDirExists w), (mkdirThrows w), (metaWriteThrows w),
           (scriptWriteThrows w); cbn; intuition discriminate.
Qed.

Lemma artifactFails_true (w : World) :
  artifactFails w = true <->
  (outDirExists w = false /\ mkdirThrows w = true) \/
  metaWriteThrows w = true \/ scriptWriteThrows w = true.
Proof.
  unfold artifactFails.
  destruct (outDirExists w), (mkdirThrows w), (metaWriteThrows w),
           (scriptWriteThrows w); cbn; intuition discriminate.
Qed.

Lemma artifact_files_differ (w : World) : genFile w <> metaFile w.
Proof.
  unfold genFile, metaFile, path_join.
  destruct (endsWithSlash (outDir w)); intros H.
  - do 2 apply app_inv_head in H. discriminate H.
  - apply app_inv_head in H. injection H as H.
    apply app_inv_head in H. discriminate H.
Qed.

Lemma writeArtifact_ok (w : World) (entries : list Entry) :
  artifactFails w = false ->
  writeArtifact w entries =
  ((if outDirExists w then [] else [ MkdirRecursive (outDir w) ]) ++
   [ WriteFile (metaFile w) (Text (metaText w entries)) None;
     WriteFile (genFile w) (Text (scriptText (nowHeader w) entries)) None;
     ConsoleLog (js "Generated script: " ++ genFile w);
     ConsoleLog (js "Metadata: " ++ metaFile w);
     ConsoleLog (js "Temporary workspace retained at: " ++ tmpRoot w ++
                 js " (contains commands.log)");
     ConsoleLog (js "Tip: review the generated script before running it. It will execute the same shell commands again.") ],
   Exited 0).
Proof.
  unfold artifactFails, writeArtifact. intros H.
  apply orb_false_iff in H as [H H3]. apply orb_false_iff in H as [H1 H2].
  rewrite H1, H2, H3. reflexivity.
Qed.

Lemma writeArtifact_outcome (w : World) (entries : list Entry) :
  snd (writeArtifact w entries) =
  if artifactFails w then Uncaught else Exited 0.
Proof.
  unfold artifactFails, writeArtifact.
  destruct (negb (outDirExists w) && mkdirThrows w); [reflexivity |].
  destruct (metaWriteThrows w); [reflexivity |].
  destruct (scriptWriteThrows w); reflexivity.
Qed.

Lemma writeArtifact_paths (w : World) (entries : list Entry) :
  writtenPaths (fst (writeArtifact w entries)) = artifactPaths w.
Proof.
  unfold artifactPaths, writeArtifact.
  destruct (outDirExists w), (mkdirThrows w), (metaWriteThrows w),
           (scriptWriteThrows w); reflexivity.
Qed.

Lemma artifactPaths_full (w : World) :
  artifactPaths w = [metaFile w; genFile w] <-> artifactFails w = false.
Proof.
  unfold artifactPaths, artifactFails.
  destruct (negb (outDirExists w) && mkdirThrows w), (metaWriteThrows w),
           (scriptWriteThrows w); cbn [orb];
    split; intros H; try reflexivity; discriminate H.
Qed.

Lemma artifactPaths_partial (w : World) :
  artifactFails w = true ->
  artifactPaths w = [] \/ artifactPaths w = [metaFile w].
Proof.
  unfold artifactPaths, artifactFails.
  destruct (negb (outDirExists w) && mkdirThrows w), (metaWriteThrows w),
           (scriptWriteThrows w); cbn [orb]; intros H;
    try discriminate H; tauto.
Qed.

Lemma writeArtifact_writes (w : World) (entries : list Entry)
    (path : jsstring) (body : FileBody) (mode : option Z) :
  In (WriteFile path body mode) (fst (writeArtifact w entries)) ->
  mode = None /\
  ((path = metaFile w /\ body = Text (metaText w entries) /\
    metaWriteThrows w = false) \/
   (path = genFile w /\ body = Text (scriptText (nowHeader w) entries) /\
    artifactFails w = false)).
Proof.
  unfold writeArtifact, artifactFails.
  destruct (outDirExists w), (mkdirThrows w), (metaWriteThrows w),
           (scriptWriteThrows w);
    cbn [negb andb orb fst app In]; intros H;
    repeat (destruct H as [H | H];
            [try discriminate H; injection H as <- <- <-; tauto |]);
    destruct H.
Qed.


Lemma onExit_entries (w : World) code signal text :
  markerExists w = true -> logText w = Some text -> parseLog text <> [] ->
  onExit w code signal =
  (exitedMessage code signal :: fst (writeArtifact w (parseLog text)),
   snd (writeArtifact w (parseLog text))).
Proof.
  intros H1 H2 H3. unfold onExit. rewrite H1, H2. cbv zeta.
  destruct (parseLog text) as [| e es] eqn:E; [congruence |].
  cbn [negb List.length Nat.eqb].
  destruct (writeArtifact w (e :: es)). reflexivity.
Qed.

Lemma onExit_outcome (w : World) code signal :
  snd (onExit w code signal) =
  if markerExists w
  then match logText w with
       | Some text =>
           if (List.length (parseLog text) =? 0)%nat then Exited 0
           else if artifactFails w then Uncaught else Exited 0
       | None => Uncaught
       end
  else Exited 0.
Proof.
  unfold onExit.
  destruct (markerExists w); [| reflexivity].
  destruct (logText w) as [text |]; [| reflexivity].
  cbv zeta. cbn [negb].
  destruct (List.length (parseLog text) =? 0)%nat; [reflexivity |].
  rewrite <- (writeArtifact_outcome w (parseLog text)).
  destruct (writeArtifact w (parseLog text)). reflexivity.
Qed.

Lemma onExit_effects (w : World) code signal :
  fst (onExit w code signal) =
  exitedMessage code signal ::
  (if markerExists w then
     match logText w with
     | None => []
     | Some text =>
         if (List.length (parseLog text) =? 0)%nat then
           [ ConsoleLog (js "No recorded commands to generate script from.");
             ConsoleLog (js "Commands log: " ++ logFile w) ]
         else fst (writeArtifact w (parseLog text))
     end
   else
     [ ConsoleLog (js "No save marker found. Nothing will be generated (capture canceled or exited without saving).");
       ConsoleLog (js "Temporary data available at " ++ tmpRoot w ++
                   js " (commands.log may be useful for debugging).") ]).
Proof.
  unfold onExit.
  destruct (markerExists w); [| reflexivity].
  destruct (logText w) as [text |]; [| reflexivity].
  cbv zeta. cbn [negb].
  destruct (List.length (parseLog text) =? 0)%nat; [reflexivity |].
  destruct (writeArtifact w (parseLog text)). reflexivity.
Qed.

Lemma onExit_writes (w : World) code signal
    (path : jsstring) (body : FileBody) (mode : option Z) :
  In (WriteFile path body mode) (fst (onExit w code signal)) ->
  markerExists w = true /\
  exists text,
    logText w = Some text /\ parseLog text <> [] /\
    In (WriteFile path body mode) (fst (writeArtifact w (parseLog text))).
Proof.
  rewrite onExit_effects. cbn [In]. intros [H | H]; [discriminate H |].
  destruct (markerExists w).
  - split; [reflexivity |].
    destruct (logText w) as [text |]; [| destruct H].
    exists text. split; [reflexivity |].
    destruct (parseLog text) as [| e es]; cbn [List.length Nat.eqb] in H.
    + cbn [In] in H. destruct H as [H | [H | []]]; discriminate H.
    + split; [discriminate | exact H].
  - cbn [In] in H. destruct H as [H | [H | []]]; discriminate H.
Qed.

(** C1 (as amended): the metadata file and the replay script are both
    written if and only if the save marker exists when the child shell
    exits, the log can be read, at least one entry remains after
    filtering, and none of the file-system calls of the artifact throws
    (creating [generated] when it is missing, writing the metadata,
    writing the script).  When they are written, the metadata file holds
    the serialized metadata and the script file the script text, and the
    process exits with status 0.  When one of the calls throws, the
    exception is not caught: the script is not written (the metadata
    file is, when it was the write of the script that threw) and the run
    ends abnormally.  When the marker is absent, or when all parsed
    entries are filtered out, no file is written and the process exits
    with status 0. *)
Theorem artifact_iff_saved_entries_and_writes (w : World) code signal :
  (writtenPaths (fst (onExit w code signal)) = [metaFile w; genFile w] <->
   markerExists w = true /\
   (exists text, logText w = Some text /\ parseLog text <> []) /\
   (outDirExists w = true \/ mkdirThrows w = false) /\
   metaWriteThrows w = false /\ scriptWriteThrows w = false) /\
  (forall text,
     markerExists w = true -> logText w = Some text -> parseLog text <> [] ->
     ((outDirExists w = true \/ mkdirThrows w = false) /\
      metaWriteThrows w = false /\ scriptWriteThrows w = false ->
      In (WriteFile (metaFile w) (Text (metaText w (parseLog text))) None)
         (fst (onExit w code signal)) /\
      In (WriteFile (genFile w)
                    (Text (scriptText (nowHeader w) (parseLog text))) None)
         (fst (onExit w code signal)) /\
      snd (onExit w code signal) = Exited 0) /\
     ((outDirExists w = false /\ mkdirThrows w = true) \/
      metaWriteThrows w = true \/ scriptWriteThrows w = true ->
      snd (onExit w code signal) = Uncaught /\
      (forall body mode,
         ~ In (WriteFile (genFile w) body mode) (fst (onExit w code signal))) /\
      writtenPaths (fst (onExit w code signal)) =
        if (negb (outDirExists w) && mkdirThrows w) || metaWriteThrows w
        then [] else [metaFile w])) /\
  (markerExists w = false \/
   (exists text, logText w = Some text /\ parseLog text = []) ->
   writtenPaths (fst (onExit w code signal)) = [] /\
   snd (onExit w code signal) = Exited 0).
Proof.
  split; [| split].
  - rewrite <- artifactFails_false.
    destruct (markerExists w) eqn:M.
    + destruct (logText w) as [text |] eqn:L.
      * destruct (parseLog text) as [| e es] eqn:P.
        -- destruct (onExit_no_entries w code signal text M L P) as (W & _).
           rewrite W. split; [discriminate |].
           intros (_ & (text' & E & Hne) & _). injection E as <-. congruence.
        -- assert (Hne : parseLog text <> []) by congruence.
           rewrite (onExit_entries w code signal text M L Hne).
           cbn [fst writtenPaths exitedMessage].
           rewrite writeArtifact_paths, artifactPaths_full.
           split; [| tauto].
           intros F. split; [reflexivity |]. split; [| exact F].
           exists text. split; [reflexivity | congruence].
      * rewrite (onExit_unreadable w code signal M L).
        cbn [fst writtenPaths exitedMessage]. split; [discriminate |].
        intros (_ & (text & E & _) & _). discriminate E.
    + destruct (onExit_not_saved w code signal M) as (W & _).
      rewrite W. split; [discriminate |]. intros (H & _). discriminate H.
  - intros text M L Hne.
    rewrite (onExit_entries w code signal text M L Hne). cbn [fst snd].
    split.
    + intros F. apply artifactFails_false in F.
      rewrite (writeArtifact_ok w (parseLog text) F). cbn [fst snd].
      split; [| split; [| reflexivity]]; right; apply in_or_app; right;
        cbn [In]; tauto.
    + intros F. apply artifactFails_true in F.
      rewrite writeArtifact_outcome, F. split; [reflexivity |]. split.
      * intros body mode [H | H]; [discriminate H |].
        apply writeArtifact_writes in H as (_ & [(H & _) | (_ & _ & H)]).
        -- now apply artifact_files_differ in H.
        -- congruence.
      * cbn [writtenPaths exitedMessage]. rewrite writeArtifact_paths.
        unfold artifactPaths, artifactFails in *.
        destruct (negb (outDirExists w) && mkdirThrows w), (metaWriteThrows w),
                 (scriptWriteThrows w); cbn [orb] in *;
          try reflexivity; discriminate F.
  - intros [M | (text & L & P)].
    + apply (onExit_not_saved w code signal M).
    + destruct (markerExists w) eqn:M.
      * destruct (onExit_no_entries w code signal text M L P) as (W & O & _).
        split; assumption.
      * apply (onExit_not_saved w code signal M).
Qed.

Lemma artifact_iff_saved_entries_and_writes_witness :
  writtenPaths (fst (onExit world_saved (Some 0%Z) None))
  = [metaFile world_saved; genFile world_saved].
Proof.
  apply (proj1 (artifact_iff_saved_entries_and_writes world_saved (Some 0%Z) None)).
  split; [reflexivity |]. split.
  - eexists. split; [reflexivity |]. vm_compute. discriminate.
  - split; [right; reflexivity |]. split; reflexivity.
Defined.

(** C1, as stated, fails: the save marker exists and two entries remain
    after filtering, but [generated] cannot be created; no file is
    written and the run ends with an uncaught exception. *)
Lemma artifact_write_failure_counterexample :
  markerExists world_readonly_cwd = true /\
  (exists text, logText world_readonly_cwd = Some text /\
                List.length (parseLog text) = 2%nat) /\
  writtenPaths (fst (onExit world_readonly_cwd (Some 0%Z) None)) = [] /\
  snd (onExit world_readonly_cwd (Some 0%Z) None) = Uncaught.
Proof.
  split; [reflexivity |]. split.
  - eexists. split; [reflexivity |]. vm_compute. reflexivity.
  - split; vm_compute; reflexivity.
Qed.






(** C7 (as amended): when the save marker exists and the log cannot be
    read, the read exception is not caught: the handler has printed its
    first line only, nothing is written, no "no recorded commands"
    message is printed, and the run ends abnormally. *)
Theorem unreadable_log_uncaught (w : World) code signal :
  markerExists w = true ->
  logText w = None ->
  onExit w code signal = ([exitedMessage code signal], Uncaught) /\
  writtenPaths (fst (onExit w code signal)) = [] /\
  ~ In (ConsoleLog (js "No recorded commands to generate script from."))
       (fst (onExit w code signal)) /\
  exitStatus (snd (onExit w code signal)) = 1%Z.
Proof.
  intros M L. rewrite (onExit_unreadable w code signal M L).
  cbn [fst snd writtenPaths exitStatus In].
  repeat split. intros [H | []]. discriminate H.
Qed.

Lemma unreadable_log_uncaught_witness :
  onExit world_unreadable_log (Some 0%Z) None
  = ([exitedMessage (Some 0%Z) None], Uncaught).
Proof.
  exact (proj1 (unreadable_log_uncaught world_unreadable_log (Some 0%Z) None
                  eq_refl eq_refl)).
Defined.

(** C7, as stated, fails: with the marker present and the log unreadable
    the handler does not complete with the "no recorded commands"
    message and status 0; it ends with an uncaught exception. *)
Lemma unreadable_log_counterexample :
  markerExists world_unreadable_log = true /\
  logText world_unreadable_log = None /\
  snd (onExit world_unreadable_log (Some 0%Z) None) <> Exited 0 /\
  ~ In (ConsoleLog (js "No recorded commands to generate script from."))
       (fst (onExit world_unreadable_log (Some 0%Z) None)).
Proof.
  split; [reflexivity |]. split; [reflexivity |].
  rewrite (onExit_unreadable world_unreadable_log (Some 0%Z) None eq_refl eq_refl).
  cbn [fst snd In]. split; [discriminate |].
  intros [H | []]. discriminate H.
Qed.

(** ** Claims on the workspace and the spawn strategy *)

Lemma includes_iff (s p : jsstring) :
  includes s p = true <-> exists pre post, s = pre ++ p ++ post.
Proof.
  induction s as [| x s IH]; cbn [includes]; rewrite orb_true_iff, startsWith_iff.
  - split.
    + intros [(rest & E) | H]; [| discriminate]. exists [], rest. exact E.
    + intros (pre & post & E). left.
      destruct pre; [exists post; exact E | discriminate].
  - rewrite IH. split.
    + intros [(rest & E) | (pre & post & E)].
      * exists [], rest. exact E.
      * exists (x :: pre), post. cbn [app]. now rewrite E.
    + intros (pre & post & E). destruct pre as [| y pre].
      * left. exists post. exact E.
      * right. injection E as _ E. eauto.
Qed.

(** The match on the base name is a case-insensitive substring match:
    some substring of the base name is the needle up to the case of its
    letters. *)
Lemma includes_toLowerCase (b p : jsstring) :
  includes (toLowerCase b) p = true <->
  exists pre q post, b = pre ++ q ++ post /\ toLowerCase q = p.
Proof.
  rewrite includes_iff. unfold toLowerCase. split.
  - intros (pre & post & E).
    apply map_eq_app in E as (pre' & r & -> & _ & E).
    apply map_eq_app in E as (q & post' & -> & E & _).
    eauto.
  - intros (pre & q & post & -> & <-).
    exists (map lowerUnit pre), (map lowerUnit post).
    now rewrite !map_app.
Qed.

(** C8 (as amended): the shell is recognised by a case-insensitive
    substring match on the base name of its path, ['zsh'] first and then
    ['bash'].  For a path whose base name matches neither, a warning is
    printed and the shell is spawned interactively with inherited streams
    and no change to the environment; the generated rc file is attached
    ([--rcfile]) only if the full path contains ['bash'], and otherwise
    the shell is spawned with [-i] alone. *)
Theorem spawn_strategy_by_basename (root rc shell : jsstring) :
  (includes (shellBase shell) (js "zsh") = true <->
   exists pre q post, basename shell = pre ++ q ++ post /\
                      toLowerCase q = js "zsh") /\
  (includes (shellBase shell) (js "bash") = true <->
   exists pre q post, basename shell = pre ++ q ++ post /\
                      toLowerCase q = js "bash") /\
  (includes (shellBase shell) (js "zsh") = true ->
   spawnShell root rc shell =
   [ ConsoleLog (js "Detected zsh: launching an interactive zsh with temporary .zshrc.");
     SpawnChild shell [js "-i"] StdioInherit [(js "ZDOTDIR", root)] ]) /\
  (includes (shellBase shell) (js "zsh") = false ->
   includes (shellBase shell) (js "bash") = true ->
   spawnShell root rc shell =
   [ ConsoleLog (js "Detected bash: launching an interactive bash with temporary rcfile.");
     SpawnChild shell [js "--rcfile"; rc; js "-i"] StdioInherit [] ]) /\
  (includes (shellBase shell) (js "zsh") = false ->
   includes (shellBase shell) (js "bash") = false ->
   exists warning,
     spawnShell root rc shell =
     [ ConsoleWarn warning;
       SpawnChild shell
         (if includes shell (js "bash") then [js "--rcfile"; rc; js "-i"]
          else [js "-i"])
         StdioInherit [] ]).
Proof.
  split; [apply includes_toLowerCase |].
  split; [apply includes_toLowerCase |].
  unfold spawnShell. cbv zeta.
  split; [| split].
  - intros ->. reflexivity.
  - intros -> ->. reflexivity.
  - intros -> ->. eexists.
    destruct (includes shell (js "bash")); reflexivity.
Qed.

Lemma spawn_strategy_by_basename_witness :
  exists warning,
    spawnShell (js "/tmp/w") (js "/tmp/w/capture_rc.sh") (js "/opt/bash-5/bin/dash") =
    [ ConsoleWarn warning;
      SpawnChild (js "/opt/bash-5/bin/dash")
                 [js "--rcfile"; js "/tmp/w/capture_rc.sh"; js "-i"]
                 StdioInherit [] ].
Proof.
  exact (proj2 (proj2 (proj2 (proj2
           (spawn_strategy_by_basename (js "/tmp/w") (js "/tmp/w/capture_rc.sh")
                                       (js "/opt/bash-5/bin/dash")))))
           eq_refl eq_refl).
Defined.

(** C8, as stated, fails: for [/bin/fish], whose base name matches
    neither name, the warning is printed and the shell is spawned with
    [-i] alone; the generated rc file is not among its arguments. *)
Lemma spawn_fallback_counterexample :
  let rc := js "/tmp/w/capture_rc.sh" in
  let shell := js "/bin/fish" in
  includes (shellBase shell) (js "zsh") = false /\
  includes (shellBase shell) (js "bash") = false /\
  (exists warning,
     spawnShell (js "/tmp/w") rc shell =
     [ ConsoleWarn warning; SpawnChild shell [js "-i"] StdioInherit [] ]) /\
  (forall args stdio env,
     In (SpawnChild shell args stdio env) (spawnShell (js "/tmp/w") rc shell) ->
     ~ In rc args).
Proof.
  cbv zeta. split; [reflexivity |]. split; [reflexivity |]. split.
  - eexists. vm_compute. reflexivity.
  - intros args stdio env H.
    assert (E : args = [js "-i"]).
    { vm_compute in H. destruct H as [H | [H | []]]; [discriminate H |].
      injection H as <- _ _. reflexivity. }
    subst args. vm_compute. intros [H' | []]. discriminate H'.
Qed.

(** C9 (what the program does): the log file is written with no mode, so
    it gets the default permission bits less the umask (0o644 under the
    usual umask 0o022), not 0o600; the two rc files next to it are
    written with mode 0o600. *)
Theorem log_file_default_mode (w : World) :
  In (WriteFile (logFile w) (Text []) None) (createWorkspace w) /\
  createdMode None 0x12 = 0x1A4%Z /\
  createdMode None 0x12 <> MODE_0600 /\
  In (WriteFile (bashRcPath w) (BashRcContent (logFile w) (markerFile w))
                (Some MODE_0600)) (createWorkspace w) /\
  In (WriteFile (zshRcPath w) (ZshRcContent (logFile w) (markerFile w))
                (Some MODE_0600)) (createWorkspace w) /\
  createdMode (Some MODE_0600) 0x12 = MODE_0600.
Proof.
  unfold createWorkspace. cbn [In].
  repeat split; try tauto. vm_compute. discriminate.
Qed.

(** ** Running the generated script *)

Lemma run_eq (f : SpawnSyncCall -> SpawnSyncResult) (c : jsstring) :
  run f c =
  (callOf c, if stepFails (f (callOf c)) then Some (exitOf (f (callOf c))) else None).
Proof.
  unfold run, stepFails, exitOf, callOf. cbv zeta.
  destruct (f _) as [e [st |]]; cbn [error status]; destruct e; cbn [orb];
    try reflexivity.
  destruct (st =? 0)%Z; reflexivity.
Qed.

Lemma exitOf_nonzero (r : SpawnSyncResult) : exitOf r <> 0%Z.
Proof.
  unfold exitOf. destruct (status r) as [st |]; [| discriminate].
  destruct (st =? 0)%Z eqn:E; [discriminate | now apply Z.eqb_neq].
Qed.

Lemma replay_all_succeed sh (commands : list jsstring) :
  forall done,
    (forall i, (i < List.length commands)%nat ->
       stepFails (sh (done ++ map callOf (firstn i commands))
                     (callOf (nth i commands []))) = false) ->
    replay sh done commands = (done ++ map callOf commands, None).
Proof.
  induction commands as [| c cs IH]; intros done H; cbn [replay map].
  - now rewrite app_nil_r.
  - rewrite run_eq.
    pose proof (H 0%nat ltac:(cbn; lia)) as H0.
    cbn [firstn map nth] in H0. rewrite app_nil_r in H0. rewrite H0.
    rewrite IH.
    + rewrite <- app_assoc. reflexivity.
    + intros i Hi. specialize (H (S i) ltac:(cbn; lia)).
      cbn [firstn map nth] in H. rewrite <- app_assoc. exact H.
Qed.

Lemma replay_first_failure sh (commands : list jsstring) :
  forall done k,
    (k < List.length commands)%nat ->
    (forall i, (i < k)%nat ->
       stepFails (sh (done ++ map callOf (firstn i commands))
                     (callOf (nth i commands []))) = false) ->
    stepFails (sh (done ++ map callOf (firstn k commands))
                  (callOf (nth k commands []))) = true ->
    replay sh done commands =
    (done ++ map callOf (firstn (S k) commands),
     Some (exitOf (sh (done ++ map callOf (firstn k commands))
                      (callOf (nth k commands []))))).
Proof.
  induction commands as [| c cs IH]; intros done k Hk Hpre Hfail;
    cbn [List.length] in Hk; [lia |].
  cbn [replay]. rewrite run_eq.
  destruct k as [| k].
  - cbn [firstn map nth] in Hfail |- *. rewrite app_nil_r in Hfail |- *.
    rewrite Hfail. reflexivity.
  - pose proof (Hpre 0%nat ltac:(lia)) as H0.
    cbn [firstn map nth] in H0. rewrite app_nil_r in H0. rewrite H0.
    rewrite (IH (done ++ [callOf c]) k).
    + cbn [firstn map nth]. rewrite <- !app_assoc. reflexivity.
    + lia.
    + intros i Hi. specialize (Hpre (S i) ltac:(lia)).
      cbn [firstn map nth] in Hpre. rewrite <- app_assoc. exact Hpre.
    + cbn [firstn map nth] in Hfail. rewrite <- app_assoc. exact Hfail.
Qed.

(** ** Reading the metadata document back *)

Lemma skipSpace_app (sp s : jsstring) :
  allJSONSpace sp -> skipSpace (sp ++ s) = skipSpace s.
Proof.
  induction 1 as [| c sp Hc _ IH]; [reflexivity |].
  cbn [app skipSpace]. rewrite Hc. exact IH.
Qed.

Lemma skipSpace_head (c : N) (s : jsstring) :
  isJSONSpace c = false -> skipSpace (c :: s) = c :: s.
Proof. intros H. cbn [skipSpace]. rewrite H. reflexivity. Qed.

Lemma allJSONSpace_gap (indent : jsstring) :
  allJSONSpace indent -> allJSONSpace (indent ++ gap).
Proof.
  intros H. apply Forall_app. split; [exact H |].
  repeat constructor.
Qed.

Lemma parseValue_skip (fuel : nat) (sp s : jsstring) :
  allJSONSpace sp -> parseValue fuel (sp ++ s) = parseValue fuel s.
Proof.
  intros H. destruct fuel; [reflexivity |].
  cbn [parseValue]. rewrite skipSpace_app by assumption. reflexivity.
Qed.

Lemma SerializeJSON_head (indent : jsstring) (v : JSON) :
  exists c t, SerializeJSON indent v = c :: t /\ valueStart c.
Proof.
  unfold valueStart.
  destruct v as [| s | [| v l] | [| kv l]]; cbn [SerializeJSON];
    eexists; eexists; (split; [reflexivity |]); tauto.
Qed.

Lemma join_itemsText (ind sb rest : jsstring) (l : list JSON) (v : JSON) :
  join_with (js "," ++ LF :: ind) (map (SerializeJSON ind) (v :: l)) ++
  LF :: sb ++ RBRACKET :: rest
  = itemsText ind sb (v :: l) rest.
Proof.
  revert v. induction l as [| v' l IH]; intros v; [reflexivity |].
  change (map (SerializeJSON ind) (v :: v' :: l))
    with (SerializeJSON ind v :: map (SerializeJSON ind) (v' :: l)).
  change (itemsText ind sb (v :: v' :: l) rest)
    with (SerializeJSON ind v ++ COMMA :: LF :: ind ++ itemsText ind sb (v' :: l) rest).
  rewrite <- IH.
  cbn [join_with map]. rewrite <- !app_assoc. reflexivity.
Qed.

Lemma join_propsText (ind sb rest : jsstring) (l : list (jsstring * JSON))
    (kv : jsstring * JSON) :
  join_with (js "," ++ LF :: ind)
    (map (fun kv => QuoteJSONString (fst kv) ++ js ": " ++
                    SerializeJSON ind (snd kv)) (kv :: l)) ++
  LF :: sb ++ RBRACE :: rest
  = propsText ind sb (kv :: l) rest.
Proof.
  revert kv. induction l as [| kv' l IH]; intros kv.
  - cbn [map join_with propsText]. rewrite <- !app_assoc. reflexivity.
  - change (propsText ind sb (kv :: kv' :: l) rest)
      with (QuoteJSONString (fst kv) ++ COLON :: SPACE ::
            SerializeJSON ind (snd kv) ++ COMMA :: LF :: ind ++
            propsText ind sb (kv' :: l) rest).
    rewrite <- IH.
    cbn [join_with map]. rewrite <- !app_assoc. reflexivity.
Qed.

Lemma SerializeJSON_JArr (indent rest : jsstring) (v : JSON) (l : list JSON) :
  SerializeJSON indent (JArr (v :: l)) ++ rest
  = LBRACKET :: LF :: (indent ++ gap) ++
    itemsText (indent ++ gap) indent (v :: l) rest.
Proof.
  rewrite <- join_itemsText.
  cbn [SerializeJSON]. cbv zeta.
  change (js "[") with [LBRACKET]. change (js "]") with [RBRACKET].
  cbn [app]. rewrite <- !app_assoc. cbn [app]. rewrite <- !app_assoc.
  reflexivity.
Qed.

Lemma SerializeJSON_JObj (indent rest : jsstring) (kv : jsstring * JSON)
    (l : list (jsstring * JSON)) :
  SerializeJSON indent (JObj (kv :: l)) ++ rest
  = LBRACE :: LF :: (indent ++ gap) ++
    propsText (indent ++ gap) indent (kv :: l) rest.
Proof.
  rewrite <- join_propsText.
  cbn [SerializeJSON]. cbv zeta.
  change (js "{") with [LBRACE]. change (js "}") with [RBRACE].
  cbn [app]. rewrite <- !app_assoc. cbn [app]. rewrite <- !app_assoc.
  reflexivity.
Qed.

Lemma valueStart_facts (c : N) :
  valueStart c ->
  isJSONSpace c = false /\ (c =? RBRACKET) = false /\ (c =? RBRACE) = false /\
  (c =? COMMA) = false.
Proof.
  unfold valueStart. intros [-> | [-> | [-> | ->]]]; repeat split.
Qed.

Lemma itemsText_head (ind sb rest : jsstring) (v : JSON) (l : list JSON) :
  exists c t, itemsText ind sb (v :: l) rest = c :: t /\ valueStart c.
Proof.
  destruct (SerializeJSON_head ind v) as (c & t & E & H).
  destruct l; cbn [itemsText]; rewrite E; cbn [app]; eauto.
Qed.

Section ReadBack.

Variable f : nat.
Hypothesis read_value :
  forall v, (weight v <= f)%nat ->
  forall indent rest, allJSONSpace indent ->
    parseValue f (SerializeJSON indent v ++ rest) = Some (v, rest).

Variables ind sb : jsstring.
Hypothesis ind_space : allJSONSpace ind.
Hypothesis sb_space : allJSONSpace sb.

Lemma read_after_newline (v : JSON) (rest : jsstring) :
  (weight v <= f)%nat ->
  parseValue f (LF :: ind ++ SerializeJSON ind v ++ rest) = Some (v, rest).
Proof.
  intros W.
  change (LF :: ind ++ SerializeJSON ind v ++ rest)
    with ((LF :: ind) ++ SerializeJSON ind v ++ rest).
  rewrite parseValue_skip by (constructor; [reflexivity | exact ind_space]).
  now apply read_value.
Qed.

Lemma skipSpace_closing (c : N) (rest : jsstring) :
  isJSONSpace c = false ->
  skipSpace (LF :: sb ++ c :: rest) = c :: rest.
Proof.
  intros H.
  change (LF :: sb ++ c :: rest) with ((LF :: sb) ++ c :: rest).
  rewrite skipSpace_app by (constructor; [reflexivity | exact sb_space]).
  now apply skipSpace_head.
Qed.

Lemma parseItems_itemsText (l : list JSON) :
  forall v n rest,
    (list_sum (map weight (v :: l)) <= f)%nat ->
    (List.length (v :: l) <= n)%nat ->
    parseItems (parseValue f) n (LF :: ind ++ itemsText ind sb (v :: l) rest)
    = Some (v :: l, rest).
Proof.
  induction l as [| v' l IH]; intros v n rest W Hn;
    (destruct n as [| n]; [cbn in Hn; lia |]);
    cbn [map list_sum fold_right] in W; cbn [List.length] in Hn.
  - cbn [itemsText parseItems].
    rewrite read_after_newline by lia.
    rewrite skipSpace_closing by reflexivity. reflexivity.
  - change (itemsText ind sb (v :: v' :: l) rest)
      with (SerializeJSON ind v ++ COMMA :: LF :: ind ++
            itemsText ind sb (v' :: l) rest).
    cbn [parseItems].
    rewrite read_after_newline by lia.
    rewrite skipSpace_head by reflexivity.
    change (COMMA =? COMMA) with true. cbv iota.
    rewrite IH; [reflexivity | cbn [map list_sum fold_right]; lia | cbn [List.length]; lia].
Qed.

Lemma read_property (k : jsstring) (v : JSON) (rest : jsstring) :
  (weight v <= f)%nat ->
  lexString (skipSpace (LF :: ind ++ QuoteJSONString k ++ COLON :: SPACE ::
                        SerializeJSON ind v ++ rest))
  = Some (k, COLON :: SPACE :: SerializeJSON ind v ++ rest) /\
  parseValue f (SPACE :: SerializeJSON ind v ++ rest) = Some (v, rest).
Proof.
  intros W. split.
  - change (LF :: ind ++ QuoteJSONString k ++ COLON :: SPACE ::
            SerializeJSON ind v ++ rest)
      with ((LF :: ind) ++ QuoteJSONString k ++ COLON :: SPACE ::
            SerializeJSON ind v ++ rest).
    rewrite skipSpace_app by (constructor; [reflexivity | exact ind_space]).
    unfold QuoteJSONString at 1. cbn [app].
    rewrite skipSpace_head by reflexivity.
    apply (lexString_QuoteJSONString k).
  - change (SPACE :: SerializeJSON ind v ++ rest)
      with ([SPACE] ++ SerializeJSON ind v ++ rest).
    rewrite parseValue_skip by (repeat constructor).
    now apply read_value.
Qed.

Lemma parseProps_propsText (l : list (jsstring * JSON)) :
  forall kv n rest,
    (list_sum (map (fun kv => weight (snd kv)) (kv :: l)) <= f)%nat ->
    (List.length (kv :: l) <= n)%nat ->
    parseProps (parseValue f) n (LF :: ind ++ propsText ind sb (kv :: l) rest)
    = Some (kv :: l, rest).
Proof.
  induction l as [| kv' l IH]; intros [k v] n rest W Hn;
    (destruct n as [| n]; [cbn in Hn; lia |]);
    cbn [map list_sum fold_right snd] in W; cbn [List.length] in Hn.
  - cbn [propsText parseProps fst snd].
    destruct (read_property k v (LF :: sb ++ RBRACE :: rest) ltac:(lia))
      as [-> R].
    rewrite skipSpace_head by reflexivity.
    change (COLON =? COLON) with true. cbv iota.
    rewrite R. rewrite skipSpace_closing by reflexivity. reflexivity.
  - change (propsText ind sb ((k, v) :: kv' :: l) rest)
      with (QuoteJSONString k ++ COLON :: SPACE ::
            SerializeJSON ind v ++ COMMA :: LF :: ind ++
            propsText ind sb (kv' :: l) rest).
    cbn [parseProps].
    destruct (read_property k v
                (COMMA :: LF :: ind ++ propsText ind sb (kv' :: l) rest)
                ltac:(lia)) as [-> R].
    rewrite skipSpace_head by reflexivity.
    change (COLON =? COLON) with true. cbv iota.
    rewrite R. rewrite skipSpace_head by reflexivity.
    change (COMMA =? COMMA) with true. cbv iota.
    rewrite IH; [reflexivity | cbn [map list_sum fold_right]; lia | cbn [List.length]; lia].
Qed.

End ReadBack.

Lemma weight_items_length (l : list JSON) :
  (List.length l <= list_sum (map weight l))%nat.
Proof.
  induction l as [| v l IH]; cbn [map list_sum fold_right List.length]; [lia |].
  fold (list_sum (map weight l)).
  assert (1 <= weight v)%nat by (destruct v; cbn; lia). lia.
Qed.

Lemma weight_props_length (l : list (jsstring * JSON)) :
  (List.length l <= list_sum (map (fun kv => weight (snd kv)) l))%nat.
Proof.
  induction l as [| [k v] l IH]; cbn [map list_sum fold_right List.length snd]; [lia |].
  fold (list_sum (map (fun kv => weight (snd kv)) l)).
  assert (1 <= weight v)%nat by (destruct v; cbn; lia). lia.
Qed.

(** With fuel for every node, a value written by [SerializeJSON], at any
    indentation and whatever follows it, is read back as it was. *)
Lemma parseValue_SerializeJSON (fuel : nat) :
  forall v, (weight v <= fuel)%nat ->
  forall indent rest, allJSONSpace indent ->
    parseValue fuel (SerializeJSON indent v ++ rest) = Some (v, rest).
Proof.
  induction fuel as [| f IH]; intros v W indent rest Hind.
  - destruct v; cbn in W; lia.
  - destruct v as [| s | [| v l] | [| kv l]].
    + reflexivity.
    + pose proof (lexString_QuoteJSONString s rest) as L.
      cbn [SerializeJSON]. unfold QuoteJSONString in L |- *.
      cbn [app] in L |- *. cbn [parseValue].
      rewrite skipSpace_head by reflexivity.
      change (DQUOTE =? DQUOTE) with true. cbv iota.
      rewrite L. reflexivity.
    + reflexivity.
    + cbn [weight] in W.
      rewrite SerializeJSON_JArr. cbn [parseValue].
      rewrite skipSpace_head by reflexivity.
      change (LBRACKET =? DQUOTE) with false.
      change (LBRACKET =? LBRACKET) with true. cbv iota.
      destruct (itemsText_head (indent ++ gap) indent rest v l) as (c & t & E & Hc).
      apply valueStart_facts in Hc as (Hs & Hb & _).
      change (LF :: (indent ++ gap) ++ itemsText (indent ++ gap) indent (v :: l) rest)
        with ((LF :: indent ++ gap) ++ itemsText (indent ++ gap) indent (v :: l) rest)
        at 1.
      rewrite skipSpace_app
        by (constructor; [reflexivity | now apply allJSONSpace_gap]).
      rewrite E, skipSpace_head by assumption. rewrite Hb. rewrite <- E.
      rewrite (parseItems_itemsText f IH (indent ++ gap) indent
                 (allJSONSpace_gap _ Hind) Hind l v (S f) rest).
      * reflexivity.
      * lia.
      * pose proof (weight_items_length (v :: l)). lia.
    + reflexivity.
    + cbn [weight] in W.
      rewrite SerializeJSON_JObj. cbn [parseValue].
      rewrite skipSpace_head by reflexivity.
      change (LBRACE =? DQUOTE) with false.
      change (LBRACE =? LBRACKET) with false.
      change (LBRACE =? LBRACE) with true. cbv iota.
      assert (E : exists t, propsText (indent ++ gap) indent (kv :: l) rest
                            = DQUOTE :: t)
        by (destruct l; cbn [propsText]; unfold QuoteJSONString; cbn [app]; eauto).
      destruct E as (t & E).
      change (LF :: (indent ++ gap) ++ propsText (indent ++ gap) indent (kv :: l) rest)
        with ((LF :: indent ++ gap) ++ propsText (indent ++ gap) indent (kv :: l) rest)
        at 1.
      rewrite skipSpace_app
        by (constructor; [reflexivity | now apply allJSONSpace_gap]).
      rewrite E, skipSpace_head by reflexivity.
      change (DQUOTE =? RBRACE) with false. cbv iota. rewrite <- E.
      rewrite (parseProps_propsText f IH (indent ++ gap) indent
                 (allJSONSpace_gap _ Hind) Hind l kv (S f) rest).
      * reflexivity.
      * lia.
      * pose proof (weight_props_length (kv :: l)). lia.
Qed.

Lemma JSON_parse_stringify (v : JSON) :
  JSON_parse (weight v) (JSON_stringify_2 v) = Some v.
Proof.
  unfold JSON_parse, JSON_stringify_2.
  rewrite <- (app_nil_r (SerializeJSON [] v)).
  rewrite parseValue_SerializeJSON; [reflexivity | lia | constructor].
Qed.

(** ** The literal stays on its line and is well-formed *)

Ltac unfold_units :=
  unfold inertUnit, isLeadSurrogate, isTrailSurrogate, LF, CR, DQUOTE,
         BACKSLASH in *.

Lemma inert_below (c : N) : c <> LF -> c <> CR -> c < 0xD800 -> inertUnit c.
Proof.
  unfold_units. intros H1 H2 H3. repeat split; try assumption;
    apply andb_false_iff; left; apply N.leb_gt; lia.
Qed.

Lemma hexDigit_inert (d : N) : d < 16 -> inertUnit (hexDigit d).
Proof.
  intros H. unfold hexDigit.
  destruct (d <? 10); apply inert_below; unfold LF, CR; lia.
Qed.

Lemma UnicodeEscape_inert (c : N) :
  c < 65536 -> Forall inertUnit (UnicodeEscape c).
Proof.
  intros H. unfold UnicodeEscape.
  repeat apply Forall_cons; [| | | | | | apply Forall_nil].
  - apply inert_below; unfold LF, CR, BACKSLASH; lia.
  - apply inert_below; unfold LF, CR; lia.
  - apply hexDigit_inert. apply N.Div0.div_lt_upper_bound. lia.
  - apply hexDigit_inert. apply N.mod_lt. discriminate.
  - apply hexDigit_inert. apply N.mod_lt. discriminate.
  - apply hexDigit_inert. apply N.mod_lt. discriminate.
Qed.

Ltac inert_constants :=
  repeat apply Forall_cons; try apply Forall_nil;
  apply inert_below; unfold LF, CR, DQUOTE, BACKSLASH; lia.

Lemma quoteUnit_inert (c : N) : Forall inertUnit (quoteUnit c).
Proof.
  unfold quoteUnit.
  destruct (c =? 8); [inert_constants |].
  destruct (c =? 9); [inert_constants |].
  destruct (c =? 10) eqn:E10; [inert_constants |].
  destruct (c =? 12); [inert_constants |].
  destruct (c =? 13) eqn:E13; [inert_constants |].
  destruct (c =? DQUOTE); [inert_constants |].
  destruct (c =? BACKSLASH); [inert_constants |].
  destruct (c <? 32) eqn:E32; cbn [orb].
  - apply UnicodeEscape_inert. apply N.ltb_lt in E32. lia.
  - destruct (isLeadSurrogate c || isTrailSurrogate c) eqn:ES.
    + apply UnicodeEscape_inert. apply surrogate_plain in ES. tauto.
    + apply orb_false_iff in ES as [E1 E2].
      apply N.eqb_neq in E10, E13.
      apply Forall_cons; [| apply Forall_nil].
      unfold inertUnit. tauto.
Qed.

Lemma wellFormed_inert_app (a b : jsstring) :
  Forall inertUnit a -> wellFormed (a ++ b) = wellFormed b.
Proof.
  induction 1 as [| c a (_ & _ & H1 & H2) _ IH]; [reflexivity |].
  cbn [app wellFormed]. rewrite H1, H2. exact IH.
Qed.

Lemma quoteBody_shape_bounded (n : nat) :
  forall s, (List.length s <= n)%nat ->
    Forall (fun c => c <> LF /\ c <> CR) (quoteBody s) /\
    forall t, wellFormed (quoteBody s ++ t) = wellFormed t.
Proof.
  induction n as [| n IH]; intros s Hn.
  - destruct s; [| cbn in Hn; lia]. split; [constructor | reflexivity].
  - destruct s as [| c [| d s']]; cbn [List.length] in Hn.
    + split; [constructor | reflexivity].
    + cbn [quoteBody]. pose proof (quoteUnit_inert c) as Q. split.
      * eapply Forall_impl; [| exact Q]. unfold inertUnit. tauto.
      * intros t. now apply wellFormed_inert_app.
    + rewrite quoteBody_cons2.
      destruct (isLeadSurrogate c && isTrailSurrogate d) eqn:EP.
      * apply andb_true_iff in EP as [Ec Ed].
        assert (Pc := surrogate_plain c ltac:(rewrite Ec; reflexivity)).
        assert (Pd := surrogate_plain d ltac:(rewrite Ed; apply orb_true_r)).
        destruct (IH s' ltac:(lia)) as [B W]. split.
        -- destruct Pc as (_ & _ & Pc & _). destruct Pd as (_ & _ & Pd & _).
           apply N.ltb_ge in Pc, Pd.
           repeat constructor; unfold LF, CR; try lia. exact B.
        -- intros t. cbn [app wellFormed]. rewrite Ec, Ed, W. reflexivity.
      * destruct (IH (d :: s') ltac:(cbn [List.length]; lia)) as [B W].
        pose proof (quoteUnit_inert c) as Q. split.
        -- apply Forall_app. split; [| exact B].
           eapply Forall_impl; [| exact Q]. unfold inertUnit. tauto.
        -- intros t. rewrite <- app_assoc, wellFormed_inert_app by assumption.
           apply W.
Qed.

Lemma QuoteJSONString_shape (s : jsstring) :
  ~ In LF (QuoteJSONString s) /\ ~ In CR (QuoteJSONString s) /\
  wellFormed (QuoteJSONString s) = true.
Proof.
  destruct (quoteBody_shape_bounded (List.length s) s (le_n _)) as [B W].
  assert (F : Forall (fun c => c <> LF /\ c <> CR) (QuoteJSONString s)).
  { unfold QuoteJSONString. constructor; [split; discriminate |].
    apply Forall_app. split; [exact B |].
    constructor; [split; discriminate | constructor]. }
  rewrite Forall_forall in F. repeat split.
  - intros H. now apply F in H.
  - intros H. now apply F in H.
  - unfold QuoteJSONString. cbn [wellFormed].
    change (isLeadSurrogate DQUOTE) with false.
    change (isTrailSurrogate DQUOTE) with false. cbn [negb andb].
    rewrite W. reflexivity.
Qed.

Lemma runLine_one_line (e : Entry) : ~ In LF (runLine e) /\ ~ In CR (runLine e).
Proof.
  destruct (QuoteJSONString_shape (cmd e)) as (H1 & H2 & _).
  unfold runLine. rewrite !in_app_iff. split; intros [H | [H | H]];
    try tauto; revert H; vm_compute; intuition discriminate.
Qed.

(** * More of the program

    ** Lines: joining, splitting and trimming *)

Lemma hasLF_false (l : jsstring) : hasLF l = false <-> ~ In LF l.
Proof.
  unfold hasLF. rewrite <- not_true_iff_false, existsb_exists. split.
  - intros H Hin. apply H. exists LF. split; [exact Hin | apply N.eqb_refl].
  - intros H (x & Hin & E). apply N.eqb_eq in E. subst x. tauto.
Qed.

Lemma endsWithCR_cons (c : N) (l : jsstring) :
  l <> [] -> endsWithCR (c :: l) = endsWithCR l.
Proof.
  intros H. unfold endsWithCR. cbn [rev].
  destruct (rev l) as [| x r] eqn:E; [| reflexivity].
  apply (f_equal (@rev N)) in E. rewrite rev_involutive in E. contradiction.
Qed.

Lemma cleanLine_iff (l : jsstring) :
  cleanLine l = true <-> ~ In LF l /\ endsWithCR l = false.
Proof.
  unfold cleanLine.
  rewrite andb_true_iff, !negb_true_iff, hasLF_false. tauto.
Qed.

Lemma split_lines_single (l : jsstring) : ~ In LF l -> split_lines l = [l].
Proof.
  induction l as [| c l IH]; intros H; [reflexivity |].
  cbn [In] in H.
  destruct (split_lines_cases c l)
    as [(E & _) | [(r & _ & E & _) | (_ & l0 & ls & E & ->)]].
  - subst c. tauto.
  - subst l. cbn [In] in H. tauto.
  - rewrite IH in E by tauto. now injection E as <- <-.
Qed.

Lemma split_lines_app_LF (l rest : jsstring) :
  cleanLine l = true ->
  split_lines (l ++ LF :: rest) = l :: split_lines rest.
Proof.
  rewrite cleanLine_iff.
  induction l as [| c l IH]; intros [H1 H2]; [reflexivity |].
  cbn [In] in H1. cbn [app].
  destruct (split_lines_cases c (l ++ LF :: rest))
    as [(E & _) | [(r & Ec & E & _) | (_ & l0 & ls & E & ->)]].
  - subst c. tauto.
  - destruct l as [| d l]; [subst c; discriminate H2 |].
    injection E as -> _. cbn [In] in H1. tauto.
  - rewrite IH in E.
    + now injection E as <- <-.
    + split; [tauto |].
      destruct l as [| d l]; [reflexivity |].
      rewrite <- H2. symmetry. apply endsWithCR_cons. discriminate.
Qed.

Lemma split_lines_app_CRLF (l rest : jsstring) :
  ~ In LF l ->
  split_lines (l ++ CR :: LF :: rest) = l :: split_lines rest.
Proof.
  induction l as [| c l IH]; intros H; [reflexivity |].
  cbn [In] in H. cbn [app].
  destruct (split_lines_cases c (l ++ CR :: LF :: rest))
    as [(E & _) | [(r & Ec & E & _) | (_ & l0 & ls & E & ->)]].
  - subst c. tauto.
  - destruct l as [| d l]; [discriminate E |].
    injection E as -> _. cbn [In] in H. tauto.
  - rewrite IH in E by tauto. now injection E as <- <-.
Qed.

Lemma join_lines_cons (l l' : jsstring) (ls : list jsstring) :
  join_lines (l :: l' :: ls) = l ++ LF :: join_lines (l' :: ls).
Proof. reflexivity. Qed.

Lemma join_crlf_cons (l l' : jsstring) (ls : list jsstring) :
  join_crlf (l :: l' :: ls) = l ++ CR :: LF :: join_crlf (l' :: ls).
Proof. reflexivity. Qed.

Lemma split_join_lines (ls : list jsstring) :
  ls <> [] -> Forall (fun l => cleanLine l = true) ls ->
  split_lines (join_lines ls) = ls.
Proof.
  induction ls as [| l [| l' ls] IH]; intros Hne F; [contradiction | |].
  - apply Forall_inv in F. apply cleanLine_iff in F.
    now apply split_lines_single.
  - rewrite join_lines_cons, split_lines_app_LF by (now apply Forall_inv in F).
    rewrite IH; [reflexivity | discriminate | now apply Forall_inv_tail in F].
Qed.

Lemma split_join_crlf (ls : list jsstring) :
  ls <> [] -> Forall (fun l => ~ In LF l) ls ->
  split_lines (join_crlf ls) = ls.
Proof.
  induction ls as [| l [| l' ls] IH]; intros Hne F; [contradiction | |].
  - apply Forall_inv in F. now apply split_lines_single.
  - rewrite join_crlf_cons, split_lines_app_CRLF by (now apply Forall_inv in F).
    rewrite IH; [reflexivity | discriminate | now apply Forall_inv_tail in F].
Qed.

Lemma trimStart_allSpace_app (a b : jsstring) :
  allSpace a -> trimStart (a ++ b) = trimStart b.
Proof.
  induction 1 as [| c a Hc _ IH]; [reflexivity |].
  cbn [app trimStart]. now rewrite Hc.
Qed.

Lemma trimStart_head (s : jsstring) : headNotSpace s -> trimStart s = s.
Proof. destruct s as [| c s]; [reflexivity |]. cbn. now intros ->. Qed.

Lemma trim_core (s w : jsstring) :
  headNotSpace s -> lastNotSpace s -> allSpace w -> trim (s ++ w) = s.
Proof.
  intros Hh Hl Hw. unfold trim.
  destruct s as [| c s].
  - cbn [app]. rewrite <- (app_nil_r w), trimStart_allSpace_app by assumption.
    reflexivity.
  - rewrite trimStart_head by exact Hh.
    unfold trimEnd. rewrite rev_app_distr.
    rewrite trimStart_allSpace_app by (now apply Forall_rev).
    rewrite trimStart_head by exact Hl. apply rev_involutive.
Qed.

Lemma headNotSpace_app (a b : jsstring) :
  a <> [] -> headNotSpace a -> headNotSpace (a ++ b).
Proof. destruct a; [contradiction | intros _ H; exact H]. Qed.

Lemma lastNotSpace_app (a b : jsstring) :
  b <> [] -> lastNotSpace b -> lastNotSpace (a ++ b).
Proof.
  intros Hne H. unfold lastNotSpace in *. rewrite rev_app_distr.
  apply headNotSpace_app; [| exact H].
  intros E. apply (f_equal (@rev N)) in E. rewrite rev_involutive in E.
  contradiction.
Qed.

Lemma lastNotSpace_not_CR (l : jsstring) : lastNotSpace l -> endsWithCR l = false.
Proof.
  unfold lastNotSpace, endsWithCR, headNotSpace.
  destruct (rev l) as [| c r]; [reflexivity |].
  intros H. destruct (c =? CR) eqn:E; [| reflexivity].
  apply N.eqb_eq in E. subst c. discriminate H.
Qed.

Lemma solidLine_clean (l : jsstring) : solidLine l -> cleanLine l = true.
Proof.
  intros (_ & H1 & H2). apply cleanLine_iff.
  split; [exact H1 | now apply lastNotSpace_not_CR].
Qed.

(** The ends of a text made of solid lines, whatever joins them. *)
Lemma joined_ends (join : list jsstring -> jsstring) (sep : jsstring) :
  (forall l, join [l] = l) ->
  (forall l l' ls, join (l :: l' :: ls) = l ++ sep ++ join (l' :: ls)) ->
  forall ls, ls <> [] -> Forall solidLine ls ->
    join ls <> [] /\
    (headNotSpace (hd [] ls) -> headNotSpace (join ls)) /\
    lastNotSpace (join ls).
Proof.
  intros J1 J2.
  induction ls as [| l [| l' ls] IH]; intros Hne F; [contradiction | |].
  - apply Forall_inv in F. destruct F as (F1 & _ & F3).
    rewrite J1. cbn [hd]. tauto.
  - pose proof (Forall_inv F) as (F1 & _ & _).
    destruct (IH ltac:(discriminate) (Forall_inv_tail F)) as (I1 & _ & I3).
    rewrite J2. cbn [hd]. repeat split.
    + destruct l; [contradiction | discriminate].
    + now apply headNotSpace_app.
    + rewrite app_assoc. now apply lastNotSpace_app.
Qed.

Lemma filter_truthy_solid (ls : list jsstring) :
  Forall solidLine ls -> filter truthy ls = ls.
Proof.
  induction 1 as [| l ls (H & _) _ IH]; [reflexivity |].
  cbn [filter]. destruct l; [contradiction |]. cbn. now rewrite IH.
Qed.

Lemma rawLines_allSpace (w : jsstring) : allSpace w -> rawLines w = [].
Proof.
  intros H. unfold rawLines.
  rewrite <- (app_nil_l w), trim_core by (assumption || exact I).
  reflexivity.
Qed.

(** A text of solid lines joined by line feeds, with any white space
    after it, is read as those lines. *)
Lemma rawLines_join_lines (ls : list jsstring) (w : jsstring) :
  Forall solidLine ls -> headNotSpace (hd [] ls) -> allSpace w ->
  rawLines (join_lines ls ++ w) = ls.
Proof.
  intros F Hh Hw. destruct ls as [| l ls].
  - cbn [join_lines app]. now apply rawLines_allSpace.
  - destruct (joined_ends join_lines [LF] (fun _ => eq_refl)
                (fun _ _ _ => eq_refl) (l :: ls) ltac:(discriminate) F)
      as (_ & H1 & H2).
    unfold rawLines. rewrite trim_core by auto.
    rewrite split_join_lines.
    + now apply filter_truthy_solid.
    + discriminate.
    + eapply Forall_impl; [| exact F]. apply solidLine_clean.
Qed.

Lemma rawLines_join_crlf (ls : list jsstring) (w : jsstring) :
  Forall solidLine ls -> headNotSpace (hd [] ls) -> allSpace w ->
  rawLines (join_crlf ls ++ w) = ls.
Proof.
  intros F Hh Hw. destruct ls as [| l ls].
  - cbn [join_crlf app]. now apply rawLines_allSpace.
  - destruct (joined_ends join_crlf [CR; LF] (fun _ => eq_refl)
                (fun _ _ _ => eq_refl) (l :: ls) ltac:(discriminate) F)
      as (_ & H1 & H2).
    unfold rawLines. rewrite trim_core by auto.
    rewrite split_join_crlf.
    + now apply filter_truthy_solid.
    + discriminate.
    + eapply Forall_impl; [| exact F]. intros a (_ & H & _). exact H.
Qed.

(** ** The hooks' log, read back *)

Lemma join_lines_snoc (ls : list jsstring) (x : jsstring) :
  ls <> [] -> join_lines (ls ++ [x]) = join_lines ls ++ LF :: x.
Proof.
  induction ls as [| l [| l' ls] IH]; intros Hne; [contradiction | reflexivity |].
  change ((l :: l' :: ls) ++ [x]) with (l :: l' :: (ls ++ [x])).
  rewrite !join_lines_cons.
  change (l' :: ls ++ [x]) with ((l' :: ls) ++ [x]).
  rewrite IH by discriminate. now rewrite <- app_assoc.
Qed.

Lemma join_lines_last_app (ls : list jsstring) (x w : jsstring) :
  join_lines (ls ++ [x ++ w]) = join_lines (ls ++ [x]) ++ w.
Proof.
  destruct ls as [| l ls]; [reflexivity |].
  rewrite !join_lines_snoc by discriminate.
  rewrite <- app_assoc. reflexivity.
Qed.

Lemma join_lines_break (a b : list jsstring) (x y : jsstring) :
  join_lines (a ++ (x ++ LF :: y) :: b) = join_lines (a ++ x :: y :: b).
Proof.
  induction a as [| l a IH].
  - cbn [app]. destruct b as [| b1 b]; [reflexivity |].
    rewrite !join_lines_cons, <- app_assoc. reflexivity.
  - cbn [app].
    destruct a as [| l' a]; cbn [app] in *.
    + change (join_lines (l :: (x ++ LF :: y) :: b))
        with (l ++ LF :: join_lines ((x ++ LF :: y) :: b)).
      rewrite IH. reflexivity.
    + change (join_lines (l :: l' :: a ++ (x ++ LF :: y) :: b))
        with (l ++ LF :: join_lines (l' :: a ++ (x ++ LF :: y) :: b)).
      rewrite IH. reflexivity.
Qed.

Lemma hookLog_lines (es : list (jsstring * jsstring)) (x : jsstring) :
  hookLog es ++ x = join_lines (map loggedLine es ++ [x]).
Proof.
  induction es as [| e es IH]; [reflexivity |].
  change (hookLog (e :: es)) with (hookLine (fst e) (snd e) ++ hookLog es).
  unfold hookLine. rewrite <- !app_assoc. cbn [app].
  rewrite <- !app_assoc. cbn [app]. rewrite IH.
  cbn [map app].
  destruct (map loggedLine es ++ [x]) as [| l' ls] eqn:E.
  - destruct (map loggedLine es); discriminate.
  - change (join_lines (loggedLine e :: l' :: ls))
      with (loggedLine e ++ LF :: join_lines (l' :: ls)).
    unfold loggedLine. now rewrite <- app_assoc.
Qed.

Lemma noSpaceIn_not_In (t : jsstring) (c : N) :
  noSpaceIn t -> isWhiteSpace c = true -> ~ In c t.
Proof.
  intros H Hc Hin. unfold noSpaceIn in H. rewrite Forall_forall in H.
  apply H in Hin. congruence.
Qed.

Lemma loggable_line (sc : jsstring * jsstring) :
  loggable sc ->
  solidLine (loggedLine sc) /\ headNotSpace (loggedLine sc) /\
  parseLine (loggedLine sc) = loggedEntry sc /\
  keep (loggedEntry sc) = notControl sc.
Proof.
  destruct sc as [t c]. unfold loggable, loggedLine, loggedEntry, notControl.
  cbn [fst snd]. intros (Ht & Hs & Hc & Hlf & Hl).
  repeat split.
  - destruct t; discriminate.
  - rewrite in_app_iff. cbn [In].
    pose proof (noSpaceIn_not_In t LF Hs eq_refl).
    intros [H1 | [H1 | H1]]; [tauto | discriminate H1 | tauto].
  - change (t ++ SPACE :: c) with (t ++ [SPACE] ++ c).
    rewrite app_assoc. now apply lastNotSpace_app.
  - destruct t as [| x t]; [contradiction |].
    apply Forall_inv in Hs. exact Hs.
  - apply parseLine_first_space. now apply (noSpaceIn_not_In t SPACE).
  - unfold keep. cbn [cmd]. destruct c; [contradiction | reflexivity].
Qed.

Lemma loggable_lines (es : list (jsstring * jsstring)) :
  Forall loggable es ->
  Forall solidLine (map loggedLine es) /\
  headNotSpace (hd [] (map loggedLine es)) /\
  map parseLine (map loggedLine es) = map loggedEntry es /\
  filter keep (map loggedEntry es) = map loggedEntry (filter notControl es).
Proof.
  induction 1 as [| sc es H _ (I1 & _ & I3 & I4)].
  - repeat split; constructor.
  - destruct (loggable_line sc H) as (L1 & L2 & L3 & L4).
    cbn [map hd filter]. rewrite L3, I3, L4, I4. repeat split.
    + now constructor.
    + exact L2.
    + destruct (notControl sc); reflexivity.
Qed.

Lemma hookLog_nonempty (es : list (jsstring * jsstring)) :
  es <> [] -> hookLog es = join_lines (map loggedLine es) ++ [LF].
Proof.
  intros Hne. rewrite <- (app_nil_r (hookLog es)), hookLog_lines.
  apply join_lines_snoc. destruct es; [contradiction | discriminate].
Qed.

Lemma noSpaceIn_solid (t : jsstring) :
  t <> [] -> noSpaceIn t -> solidLine t /\ headNotSpace t.
Proof.
  intros Hne H. repeat split.
  - exact Hne.
  - now apply (noSpaceIn_not_In t LF).
  - unfold lastNotSpace. apply Forall_rev in H.
    destruct (rev t) as [| c r]; [exact I | now apply Forall_inv in H].
  - destruct t as [| c t]; [exact I | now apply Forall_inv in H].
Qed.

Lemma headNotSpace_hd_app (a b : list jsstring) :
  headNotSpace (hd [] a) -> headNotSpace (hd [] b) ->
  Forall solidLine a -> headNotSpace (hd [] (a ++ b)).
Proof. destruct a; intros; assumption. Qed.

Ltac show_solid :=
  split; [| split];
  [ discriminate
  | vm_compute; intuition discriminate
  | vm_compute; reflexivity ].

Ltac show_loggable :=
  split; [| split; [| split; [| split]]];
  [ discriminate
  | repeat constructor
  | discriminate
  | vm_compute; intuition discriminate
  | vm_compute; reflexivity ].

(** X1: the parser works line by line.  A text of non-empty lines, none
    holding a line feed or ending with white space, the first not
    starting with white space, is read as one entry per line in the same
    order, each line split on its own; and it is read the same whether
    the lines end with a line feed or with a carriage return and a line
    feed. *)
Theorem parser_reads_lines_LF_or_CRLF (ls : list jsstring) :
  Forall solidLine ls ->
  headNotSpace (hd [] ls) ->
  parsedEntries (join_lines ls ++ [LF]) = map parseLine ls /\
  parsedEntries (join_crlf ls ++ [CR; LF]) = map parseLine ls.
Proof.
  intros F H. unfold parsedEntries.
  rewrite rawLines_join_lines, rawLines_join_crlf;
    try assumption; repeat constructor.
Qed.

Lemma parser_reads_lines_LF_or_CRLF_witness :
  parsedEntries (js "T1 echo hi" ++ CR :: LF :: js "T2 ls" ++ [CR; LF])
  = [mkEntry (Some (js "T1")) (js "echo hi"); mkEntry (Some (js "T2")) (js "ls")].
Proof.
  refine (proj2 (parser_reads_lines_LF_or_CRLF
                   [js "T1 echo hi"; js "T2 ls"] _ _)).
  - repeat apply Forall_cons; [show_solid | show_solid | apply Forall_nil].
  - vm_compute. reflexivity.
Defined.

(** X2: what the hooks log is what the parser reads back.  For commands
    logged as [<stamp> <command>] and a line feed each, where no stamp is
    empty or holds white space and every command is non-empty, holds no
    line feed and does not end with white space, the parsed entries are
    exactly the logged pairs, in order; the retained entries are those
    whose command does not begin with ['shell2node']. *)
Theorem hook_log_round_trip (es : list (jsstring * jsstring)) :
  Forall loggable es ->
  parsedEntries (hookLog es) = map loggedEntry es /\
  parseLog (hookLog es) = map loggedEntry (filter notControl es).
Proof.
  intros F. destruct (loggable_lines es F) as (L1 & L2 & L3 & L4).
  assert (P : parsedEntries (hookLog es) = map loggedEntry es).
  { destruct es as [| e es]; [reflexivity |].
    rewrite hookLog_nonempty by discriminate.
    unfold parsedEntries.
    rewrite rawLines_join_lines by (assumption || (repeat constructor)).
    exact L3. }
  split; [exact P |]. unfold parseLog. rewrite P. exact L4.
Qed.

Lemma hook_log_round_trip_witness :
  parseLog (hookLog [(js "T1", js "echo hi"); (js "T2", js "shell2node save")])
  = [mkEntry (Some (js "T1")) (js "echo hi")].
Proof.
  refine (proj2 (hook_log_round_trip
                   [(js "T1", js "echo hi"); (js "T2", js "shell2node save")] _)).
  repeat apply Forall_cons; [| | apply Forall_nil];
    show_loggable.
Defined.

(** X3: a command logged with an empty text as the last line of the log
    is not dropped.  Trimming removes the space after its stamp, the line
    is left with no space, and the stamp itself becomes the command text
    of an entry with a null time stamp; unless it begins with
    ['shell2node'] it is retained and the generated script invokes it. *)
Theorem dangling_stamp_is_replayed
    (es : list (jsstring * jsstring)) (t d : jsstring) :
  Forall loggable es ->
  t <> [] -> noSpaceIn t ->
  startsWith t (js "shell2node") = false ->
  parsedEntries (hookLog es ++ hookLine t [])
  = map loggedEntry es ++ [mkEntry None t] /\
  In t (invocations (scriptLines d (parseLog (hookLog es ++ hookLine t [])))).
Proof.
  intros F Hne Hs Hc.
  destruct (loggable_lines es F) as (L1 & L2 & L3 & L4).
  destruct (noSpaceIn_solid t Hne Hs) as (S1 & S2).
  assert (P : parsedEntries (hookLog es ++ hookLine t [])
              = map loggedEntry es ++ [mkEntry None t]).
  { change (hookLine t []) with (t ++ [SPACE; LF]).
    rewrite hookLog_lines, join_lines_last_app.
    unfold parsedEntries. rewrite rawLines_join_lines.
    - rewrite map_app, L3. cbn [map].
      rewrite parseLine_no_space by (now apply (noSpaceIn_not_In t SPACE)).
      reflexivity.
    - apply Forall_app. split; [exact L1 | now constructor].
    - apply headNotSpace_hd_app; assumption.
    - repeat constructor. }
  split; [exact P |].
  rewrite invocations_scriptLines. unfold parseLog. rewrite P.
  rewrite filter_app, map_app, in_app_iff. right.
  cbn [filter]. unfold keep. cbn [cmd]. rewrite Hc.
  destruct t; [contradiction |]. cbn. tauto.
Qed.

Lemma dangling_stamp_is_replayed_witness :
  In (js "2024-01-01T00:00:01Z")
     (invocations
        (scriptLines (js "2024-01-01T00:00:09.000Z")
           (parseLog (hookLog [(js "2024-01-01T00:00:00Z", js "ls")] ++
                      hookLine (js "2024-01-01T00:00:01Z") [])))).
Proof.
  refine (proj2 (dangling_stamp_is_replayed
                   [(js "2024-01-01T00:00:00Z", js "ls")]
                   (js "2024-01-01T00:00:01Z")
                   (js "2024-01-01T00:00:09.000Z") _ _ _ _)).
  - repeat apply Forall_cons; [| apply Forall_nil].
    show_loggable.
  - discriminate.
  - repeat constructor.
  - vm_compute. reflexivity.
Defined.

(** X4: a command whose text holds a line feed is not read back as one
    entry.  Its first line is read with the stamp, and what follows the
    line feed is read as a line of its own, split at its own first
    space; the entries before and after are not affected. *)
Theorem multiline_command_splits
    (es1 es2 : list (jsstring * jsstring)) (t c1 c2 : jsstring) :
  Forall loggable es1 -> Forall loggable es2 ->
  loggable (t, c1) -> solidLine c2 ->
  parsedEntries (hookLog (es1 ++ (t, c1 ++ LF :: c2) :: es2))
  = map loggedEntry es1 ++
    mkEntry (Some t) c1 :: parseLine c2 :: map loggedEntry es2.
Proof.
  intros F1 F2 Ht Hc.
  destruct (loggable_lines es1 F1) as (A1 & A2 & A3 & _).
  destruct (loggable_lines es2 F2) as (B1 & _ & B3 & _).
  destruct (loggable_line (t, c1) Ht) as (T1 & T2 & T3 & _).
  rewrite hookLog_nonempty by (destruct es1; discriminate).
  rewrite map_app. cbn [map].
  replace (loggedLine (t, c1 ++ LF :: c2)) with (loggedLine (t, c1) ++ LF :: c2)
    by (unfold loggedLine; cbn [fst snd]; now rewrite <- app_assoc).
  rewrite join_lines_break.
  unfold parsedEntries. rewrite rawLines_join_lines.
  - rewrite map_app. cbn [map]. now rewrite A3, B3, T3.
  - apply Forall_app. split; [exact A1 |].
    constructor; [exact T1 | constructor; [exact Hc | exact B1]].
  - apply headNotSpace_hd_app; assumption.
  - repeat constructor.
Qed.

Lemma multiline_command_splits_witness :
  parsedEntries (hookLog [(js "T1", js "echo 'a" ++ LF :: js "b c'")])
  = [mkEntry (Some (js "T1")) (js "echo 'a"); mkEntry (Some (js "b")) (js "c'")].
Proof.
  refine (multiline_command_splits [] [] (js "T1") (js "echo 'a") (js "b c'")
            _ _ _ _).
  - apply Forall_nil.
  - apply Forall_nil.
  - show_loggable.
  - show_solid.
Defined.

(** ** The text of the generated script *)

Lemma endsWithCR_app (a b : jsstring) :
  b <> [] -> endsWithCR (a ++ b) = endsWithCR b.
Proof.
  intros Hne. unfold endsWithCR. rewrite rev_app_distr.
  destruct (rev b) as [| c r] eqn:E; [| reflexivity].
  apply (f_equal (@rev N)) in E. rewrite rev_involutive in E. contradiction.
Qed.

Lemma cleanLine_app (a b : jsstring) :
  cleanLine a = true -> cleanLine b = true -> cleanLine (a ++ b) = true.
Proof.
  rewrite !cleanLine_iff, in_app_iff. intros [A1 A2] [B1 B2].
  split; [tauto |].
  destruct b as [| c b]; [now rewrite app_nil_r |].
  rewrite endsWithCR_app by discriminate. exact B2.
Qed.

Lemma digits_of_uint (d : Decimal.uint) :
  Forall isDigit (js (NilEmpty.string_of_uint d)).
Proof.
  induction d; cbn [NilEmpty.string_of_uint]; try apply Forall_nil;
    (apply Forall_cons; [unfold isDigit; cbn; lia | exact IHd]).
Qed.

Lemma showNat_digits (n : nat) : Forall isDigit (showNat n).
Proof.
  unfold showNat, showZ.
  destruct (Z.of_nat n) as [| p | p] eqn:E; [| | lia].
  - repeat constructor; unfold isDigit; cbn; lia.
  - cbn [Z.to_int NilZero.string_of_int]. unfold NilZero.string_of_uint.
    destruct (Pos.to_uint p) eqn:Ed; try (rewrite <- Ed; apply digits_of_uint).
    repeat constructor; unfold isDigit; cbn; lia.
Qed.

Lemma digits_clean (s : jsstring) : Forall isDigit s -> cleanLine s = true.
Proof.
  intros F. apply cleanLine_iff. rewrite Forall_forall in F. split.
  - intros H. apply F in H. unfold isDigit, LF in H. lia.
  - unfold endsWithCR. destruct (rev s) as [| c r] eqn:E; [reflexivity |].
    assert (H : In c s) by (apply in_rev; rewrite E; now left).
    apply F in H. unfold isDigit in H. apply N.eqb_neq. unfold CR. lia.
Qed.

Lemma runLine_clean (e : Entry) : cleanLine (runLine e) = true.
Proof.
  apply cleanLine_iff. split; [apply runLine_one_line |].
  unfold runLine. rewrite app_assoc, endsWithCR_app by discriminate.
  reflexivity.
Qed.

Lemma scriptLines_clean (d : jsstring) (es : list Entry) :
  cleanLine d = true ->
  Forall (fun l => cleanLine l = true) (scriptLines d es).
Proof.
  intros Hd. unfold scriptLines. apply Forall_app. split.
  - unfold scriptPrologue.
    repeat apply Forall_cons; try apply Forall_nil;
      try (vm_compute; reflexivity).
    + apply cleanLine_app; [reflexivity |].
      apply digits_clean, showNat_digits.
    + apply cleanLine_app; [reflexivity | exact Hd].
  - apply Forall_app. split.
    + apply Forall_forall. intros l H. apply in_map_iff in H as (e & <- & _).
      apply runLine_clean.
    + repeat constructor.
Qed.

(** X5: the script file is its lines.  Provided the generation date
    holds no line feed and does not end with a carriage return, splitting
    the text written to the script file gives back the lines the
    generator pushed: twenty lines of prologue, one line per entry and a
    closing line.  So whatever the command texts are, the invocations
    read from the file are the entries' commands in order, and the count
    in the header is their number. *)
Theorem script_text_is_its_lines (d : jsstring) (es : list Entry) :
  cleanLine d = true ->
  split_lines (scriptText d es) = scriptLines d es /\
  List.length (split_lines (scriptText d es)) = (21 + List.length es)%nat /\
  invocations (split_lines (scriptText d es)) = map cmd es /\
  nth 1 (split_lines (scriptText d es)) [] =
    js "// Captured commands: " ++
    showNat (List.length (invocations (split_lines (scriptText d es)))).
Proof.
  intros Hd.
  assert (E : split_lines (scriptText d es) = scriptLines d es).
  { unfold scriptText. apply split_join_lines.
    - unfold scriptLines, scriptPrologue. discriminate.
    - now apply scriptLines_clean. }
  rewrite E, invocations_scriptLines, length_map.
  split; [reflexivity |]. split; [| split; reflexivity].
  unfold scriptLines. rewrite !length_app, length_map. cbn. lia.
Qed.

Lemma script_text_is_its_lines_witness :
  invocations
    (split_lines
       (scriptText (js "2024-01-01T00:00:09.000Z")
          [mkEntry (Some (js "T1")) (js "echo 'a'" ++ [LF; CR]);
           mkEntry None (js "ls")]))
  = [js "echo 'a'" ++ [LF; CR]; js "ls"].
Proof.
  refine (proj1 (proj2 (proj2
            (script_text_is_its_lines (js "2024-01-01T00:00:09.000Z")
               [mkEntry (Some (js "T1")) (js "echo 'a'" ++ [LF; CR]);
                mkEntry None (js "ls")] _)))).
  vm_compute. reflexivity.
Defined.

(** ** The run as a whole *)






Lemma no_execute_bit (umask : Z) :
  Z.land (createdMode None umask) MODE_0111 = 0%Z.
Proof.
  unfold createdMode. apply Z.bits_inj'. intros n Hn.
  rewrite Z.land_spec, Z.ldiff_spec, Z.bits_0.
  assert (H : (Z.testbit MODE_0666 n && Z.testbit MODE_0111 n)%bool = false).
  { rewrite <- Z.land_spec. change (Z.land MODE_0666 MODE_0111) with 0%Z.
    apply Z.bits_0. }
  destruct (Z.testbit MODE_0666 n), (Z.testbit MODE_0111 n),
           (Z.testbit umask n); try reflexivity; discriminate H.
Qed.

(** X7: the artifact files get default permissions.  Every file the exit
    handler writes (the metadata file and the replay script) is written
    with no mode, so it is created with 0o666 less the umask: whatever
    the umask, the replay script has no execute bit. *)
Theorem artifact_files_not_executable (w : World) code signal
    (path : jsstring) (body : FileBody) (mode : option Z) (umask : Z) :
  In (WriteFile path body mode) (fst (onExit w code signal)) ->
  mode = None /\
  (path = metaFile w \/ path = genFile w) /\
  Z.land (createdMode mode umask) MODE_0111 = 0%Z.
Proof.
  intros H. apply onExit_writes in H as (_ & text & _ & _ & H).
  apply writeArtifact_writes in H as (-> & H).
  split; [reflexivity |]. split; [tauto | apply no_execute_bit].
Qed.

Lemma artifact_files_not_executable_witness :
  Z.land (createdMode None 0x12) MODE_0111 = 0%Z.
Proof.
  refine (proj2 (proj2
    (artifact_files_not_executable world_saved (Some 0%Z) None
       (genFile world_saved)
       (Text (scriptText (nowHeader world_saved)
                (parseLog (js "T1 echo hi" ++ LF :: js "T2 ls" ++ LF ::
                           js "T3 shell2node save" ++ [LF]))))
       None 0x12 _))).
  vm_compute. tauto.
Defined.

Ltac in_absurd H :=
  cbn [In] in H;
  repeat (destruct H as [H | H]; [discriminate H |]); destruct H.

Ltac no_mkdir :=
  let H := fresh "H" in intros ? H; in_absurd H.

Lemma mkdir_only_first (q p : jsstring) (rest pre post : list Effect) :
  (forall p', ~ In (MkdirRecursive p') rest) ->
  MkdirRecursive q :: rest = pre ++ MkdirRecursive p :: post ->
  pre = [] /\ p = q /\ post = rest.
Proof.
  intros Hno E. destruct pre as [| x pre]; cbn [app] in E.
  - injection E as -> ->. tauto.
  - exfalso. injection E as _ E. apply (Hno p). rewrite E. apply in_elt.
Qed.

Lemma no_mkdir_no_split (l pre post : list Effect) (p : jsstring) :
  (forall p', ~ In (MkdirRecursive p') l) ->
  l = pre ++ MkdirRecursive p :: post -> False.
Proof. intros Hno E. apply (Hno p). rewrite E. apply in_elt. Qed.

Lemma writeArtifact_mkdir (w : World) (entries : list Entry) :
  (forall p, In (MkdirRecursive p) (fst (writeArtifact w entries)) <->
     p = outDir w /\ outDirExists w = false /\ mkdirThrows w = false) /\
  (forall pre post p,
     fst (writeArtifact w entries) = pre ++ MkdirRecursive p :: post ->
     pre = [] /\
     writtenPaths post =
       if metaWriteThrows w then []
       else if scriptWriteThrows w then [metaFile w]
       else [metaFile w; genFile w]).
Proof.
  unfold writeArtifact.
  destruct (outDirExists w), (mkdirThrows w), (metaWriteThrows w),
           (scriptWriteThrows w); cbn [negb andb fst app]; split;
    try (intros p; split;
         [ cbn [In]; intros H;
           repeat (destruct H as [H | H];
                   [try discriminate H; injection H as <-; tauto |]);
           destruct H
         | intros (-> & H1 & H2); try discriminate H1; try discriminate H2;
           cbn [In]; tauto ]);
    intros pre post p E;
    first [ apply mkdir_only_first in E as (-> & -> & ->);
            [split; reflexivity | no_mkdir]
          | exfalso; revert E; apply no_mkdir_no_split; no_mkdir ].
Qed.

(** X8: the output directory.  [generated] is created (recursively) only
    when an artifact is about to be written and the directory does not
    exist yet (and the call does not throw); it is then created before
    any artifact file is written, and the files written after it are the
    metadata file and the replay script, as far as their writes
    succeed. *)
Theorem output_directory_created_when_needed (w : World) code signal :
  (forall p,
     In (MkdirRecursive p) (fst (onExit w code signal)) <->
     p = outDir w /\ outDirExists w = false /\ mkdirThrows w = false /\
     markerExists w = true /\
     exists text, logText w = Some text /\ parseLog text <> []) /\
  (forall pre post p,
     fst (onExit w code signal) = pre ++ MkdirRecursive p :: post ->
     writtenPaths pre = [] /\
     writtenPaths post =
       if metaWriteThrows w then []
       else if scriptWriteThrows w then [metaFile w]
       else [metaFile w; genFile w]).
Proof.
  rewrite onExit_effects. unfold exitedMessage.
  destruct (markerExists w) eqn:M.
  - destruct (logText w) as [text |] eqn:L.
    + destruct (parseLog text) as [| e es] eqn:P; cbn [List.length Nat.eqb].
      * split.
        -- intros p. split; [intros H; in_absurd H |].
           intros (_ & _ & _ & _ & t & E & Hne). injection E as <-. congruence.
        -- intros pre post p E. exfalso. revert E.
           apply no_mkdir_no_split. no_mkdir.
      * destruct (writeArtifact_mkdir w (e :: es)) as [A B]. split.
        -- intros p. cbn [In]. rewrite A. split.
           ++ intros [H | (-> & H1 & H2)]; [discriminate H |].
              repeat split; try assumption.
              exists text. split; [reflexivity | rewrite P; discriminate].
           ++ intros (-> & H1 & H2 & _). right. tauto.
        -- intros pre post p E.
           destruct pre as [| x pre]; cbn [app] in E; [discriminate E |].
           injection E as <- E. apply B in E as (-> & E).
           split; [reflexivity | exact E].
    + split.
      * intros p. split; [intros H; in_absurd H |].
        intros (_ & _ & _ & _ & t & E & _). discriminate E.
      * intros pre post p E. exfalso. revert E.
        apply no_mkdir_no_split. no_mkdir.
  - split.
    + intros p. split; [intros H; in_absurd H |].
      intros (_ & _ & _ & H & _). discriminate H.
    + intros pre post p E. exfalso. revert E.
      apply no_mkdir_no_split. no_mkdir.
Qed.

Lemma output_directory_created_when_needed_witness :
  In (MkdirRecursive (outDir world_saved))
     (fst (onExit world_saved (Some 0%Z) None)).
Proof.
  apply (proj1 (output_directory_created_when_needed world_saved (Some 0%Z) None)).
  split; [reflexivity |]. split; [reflexivity |]. split; [reflexivity |].
  split; [reflexivity |].
  eexists. split; [reflexivity |]. vm_compute. discriminate.
Defined.

(** X9: the default shell.  When [SHELL] is not set, or is set to the
    empty string, the shell is [/bin/bash] and the bash strategy is
    taken: it is spawned with [--rcfile], the generated rc file and
    [-i], with inherited streams and no change to the environment. *)
Theorem default_shell_is_bash (w : World) (root rc : jsstring) :
  env_SHELL w = None \/ env_SHELL w = Some [] ->
  userShell w = js "/bin/bash" /\
  spawnShell root rc (userShell w) =
  [ ConsoleLog (js "Detected bash: launching an interactive bash with temporary rcfile.");
    SpawnChild (js "/bin/bash") [js "--rcfile"; rc; js "-i"] StdioInherit [] ].
Proof.
  intros H.
  assert (E : userShell w = js "/bin/bash")
    by (unfold userShell; destruct H as [-> | ->]; reflexivity).
  rewrite E. split; reflexivity.
Qed.

Lemma default_shell_is_bash_witness :
  userShell world_no_SHELL = js "/bin/bash".
Proof.
  exact (proj1 (default_shell_is_bash world_no_SHELL [] [] (or_introl eq_refl))).
Defined.

(** X10: how the captured shell ended does not matter.  Its exit code
    and signal appear in the first message the exit handler prints and
    nowhere else: every other effect, the files written and the way the
    program ends are the same for every code and signal. *)
Theorem child_status_only_reported (w : World)
    (code code' : option Z) (signal signal' : option jsstring) :
  fst (onExit w code signal) =
    exitedMessage code signal :: tl (fst (onExit w code signal)) /\
  tl (fst (onExit w code signal)) = tl (fst (onExit w code' signal')) /\
  writtenPaths (fst (onExit w code signal)) =
    writtenPaths (fst (onExit w code' signal')) /\
  snd (onExit w code signal) = snd (onExit w code' signal').
Proof.
  rewrite !onExit_outcome, !onExit_effects. cbn [tl writtenPaths exitedMessage].
  repeat split.
Qed.

(** X11: the time stamp in the file names.  [dashed] replaces every
    colon and period by a dash and nothing else: the result has the same
    length, holds no colon and no period, and a text without them is
    left as it is. *)
Theorem dashed_has_no_colon_or_period (iso : jsstring) :
  List.length (dashed iso) = List.length iso /\
  ~ In COLON (dashed iso) /\ ~ In 46 (dashed iso) /\
  Forall2 (fun c c' => if (c =? COLON) || (c =? 46) then c' = 45 else c' = c)
          iso (dashed iso).
Proof.
  unfold dashed. split; [apply length_map |].
  induction iso as [| c iso (I1 & I2 & I3)]; cbn [map In].
  - repeat split; [tauto | tauto | constructor].
  - change 58 with COLON.
    destruct ((c =? COLON) || (c =? 46)) eqn:E.
    + repeat split.
      * intros [H | H]; [discriminate H | tauto].
      * intros [H | H]; [discriminate H | tauto].
      * constructor; [now rewrite E | exact I3].
    + apply orb_false_iff in E as [E1 E2].
      apply N.eqb_neq in E1, E2. repeat split.
      * intros [H | H]; [congruence | tauto].
      * intros [H | H]; [congruence | tauto].
      * constructor; [| exact I3].
        apply N.eqb_neq in E1, E2. now rewrite E1, E2.
Qed.

(** X12: saving with nothing logged.  When the marker exists and the log
    holds nothing but white space (the empty file the program created
    included), no entry is read, nothing is written, the two "no
    recorded commands" lines are printed after the first message and the
    program exits with status 0. *)
Theorem whitespace_log_gives_no_artifact (w : World) code signal
    (text : jsstring) :
  markerExists w = true -> logText w = Some text -> allSpace text ->
  parseLog text = [] /\
  onExit w code signal =
  ([ exitedMessage code signal;
     ConsoleLog (js "No recorded commands to generate script from.");
     ConsoleLog (js "Commands log: " ++ logFile w) ],
   Exited 0).
Proof.
  intros M L S.
  assert (P : parseLog text = []).
  { unfold parseLog, parsedEntries. now rewrite rawLines_allSpace. }
  split; [exact P |].
  unfold onExit. rewrite M, L, P. reflexivity.
Qed.

Lemma whitespace_log_gives_no_artifact_witness :
  parseLog (js " " ++ [LF; TAB; CR; LF]) = [].
Proof.
  refine (proj1 (whitespace_log_gives_no_artifact
                   (mkWorld [js "capture"] None [] [] SpawnFailed true
                            (Some (js " " ++ [LF; TAB; CR; LF])) false [] [] []
                            false false false)
                   None None (js " " ++ [LF; TAB; CR; LF]) eq_refl eq_refl _)).
  repeat constructor.
Defined.



(** X14: a step ended by a signal does not stop the replay.  The script's
    [run] exits only on a spawn error or a non-zero exit status; when
    every step either exits with status 0 or has no exit status at all
    (it was ended by a signal) and none has a spawn error, every command
    is run, in order, and the script ends without calling
    [process.exit]. *)
Theorem replay_continues_after_signal
    (d : jsstring) (entries : list Entry)
    (sh : list SpawnSyncCall -> SpawnSyncCall -> SpawnSyncResult) :
  (forall i, (i < List.length entries)%nat ->
     error (resultAt sh (map cmd entries) i) = false /\
     (status (resultAt sh (map cmd entries) i) = None \/
      status (resultAt sh (map cmd entries) i) = Some 0%Z)) ->
  runScript sh (scriptLines d entries) = (map callOf (map cmd entries), None).
Proof.
  intros H. unfold runScript. rewrite invocations_scriptLines.
  apply replay_all_succeed. intros i Hi. rewrite length_map in Hi.
  destruct (H i Hi) as [He Hs]. unfold resultAt in He, Hs.
  cbn [app]. unfold stepFails. rewrite He.
  destruct Hs as [-> | ->]; reflexivity.
Qed.

Lemma replay_continues_after_signal_witness :
  runScript sh_signal_killed
    (scriptLines (js "2024-01-01T00:00:00.002Z")
       [mkEntry (Some (js "T1")) (js "kill -9 $$");
        mkEntry (Some (js "T2")) (js "echo after")])
  = ([callOf (js "kill -9 $$"); callOf (js "echo after")], None).
Proof.
  refine (replay_continues_after_signal
            (js "2024-01-01T00:00:00.002Z")
            [mkEntry (Some (js "T1")) (js "kill -9 $$");
             mkEntry (Some (js "T2")) (js "echo after")]
            sh_signal_killed _).
  intros i Hi.
  destruct i as [| [| i]]; [| | cbn in Hi; lia];
    (split; [reflexivity |]); vm_compute; tauto.
Defined.

(** X15: the script never invokes the control command.  Whatever the
    log, no invocation of the generated script has an empty command or a
    command that begins with ['shell2node']; and every invocation is the
    command text of a parsed entry. *)
Theorem script_never_invokes_control_command (text d c : jsstring) :
  In c (invocations (scriptLines d (parseLog text))) ->
  c <> [] /\ startsWith c (js "shell2node") = false /\
  In c (map cmd (parsedEntries text)).
Proof.
  rewrite invocations_scriptLines, in_map_iff. intros (e & <- & H).
  unfold parseLog in H. apply filter_In in H as [H K].
  unfold keep in K. apply andb_true_iff in K as [K1 K2].
  apply negb_true_iff in K2. repeat split.
  - intros E. rewrite E in K1. discriminate K1.
  - exact K2.
  - now apply in_map.
Qed.

Lemma script_never_invokes_control_command_witness :
  startsWith (js "ls") (js "shell2node") = false.
Proof.
  refine (proj1 (proj2 (script_never_invokes_control_command
            (js "T1 shell2node save" ++ LF :: js "T2 ls") [] (js "ls") _))).
  vm_compute. tauto.
Defined.

(** ** The rc texts *)

Lemma QuoteJSONString_clean (p : jsstring) :
  cleanLine (QuoteJSONString p) = true.
Proof.
  apply cleanLine_iff. split; [apply QuoteJSONString_shape |].
  unfold QuoteJSONString.
  change (DQUOTE :: quoteBody p ++ [DQUOTE])
    with ((DQUOTE :: quoteBody p) ++ [DQUOTE]).
  now rewrite endsWithCR_app.
Qed.

Lemma export_line_clean (prefix p : jsstring) :
  cleanLine prefix = true -> cleanLine (prefix ++ QuoteJSONString p) = true.
Proof. intros H. apply cleanLine_app; [exact H | apply QuoteJSONString_clean]. Qed.

Lemma exported_skip (name l : jsstring) (ls : list jsstring) :
  exportLine name l = None -> exported name (l :: ls) = exported name ls.
Proof. intros H. cbn [exported]. now rewrite H. Qed.

Lemma exported_hit (name p : jsstring) (ls : list jsstring) :
  exported name (((js "export " ++ name ++ js "=") ++ QuoteJSONString p) :: ls)
  = Some p.
Proof.
  cbn [exported]. unfold exportLine. rewrite expect_app.
  rewrite <- (app_nil_r (QuoteJSONString p)), lexString_QuoteJSONString.
  reflexivity.
Qed.

Ltac template_clean :=
  apply Forall_cons; [vm_compute; reflexivity |];
  apply Forall_cons; [vm_compute; reflexivity |];
  apply Forall_cons; [apply export_line_clean; vm_compute; reflexivity |];
  apply Forall_cons; [apply export_line_clean; vm_compute; reflexivity |];
  repeat (apply Forall_cons; [vm_compute; reflexivity |]);
  apply Forall_nil.


Lemma bash_rc_lines (logPath markerPath : jsstring) :
  split_lines (generateBashRcContent logPath markerPath) =
  bashRcTemplate (QuoteJSONString logPath) (QuoteJSONString markerPath).
Proof.
  unfold generateBashRcContent. apply split_join_lines; [discriminate |].
  unfold bashRcTemplate. template_clean.
Qed.

Lemma bash_rc_exports (logPath markerPath : jsstring) :
  exportedValue (js "SHELL2NODE_LOG") (generateBashRcContent logPath markerPath)
    = Some logPath /\
  exportedValue (js "SHELL2NODE_MARKER") (generateBashRcContent logPath markerPath)
    = Some markerPath.
Proof.
  unfold exportedValue. rewrite bash_rc_lines. unfold bashRcTemplate. split.
  - do 2 (rewrite exported_skip by reflexivity).
    apply (exported_hit (js "SHELL2NODE_LOG")).
  - do 3 (rewrite exported_skip by reflexivity).
    apply (exported_hit (js "SHELL2NODE_MARKER")).
Qed.

(** X16: the bash rc text.  Whatever the two paths are, the text has the
    same 30 lines, which differ from the template only in the two
    [export] lines; a path cannot add a line, because its literal holds
    no line break.  Reading the literal on the [export] line of each
    variable gives back exactly the path it was given. *)
Theorem bash_rc_exports_round_trip (logPath markerPath : jsstring) :
  split_lines (generateBashRcContent logPath markerPath) =
    bashRcTemplate (QuoteJSONString logPath) (QuoteJSONString markerPath) /\
  List.length (split_lines (generateBashRcContent logPath markerPath)) = 30%nat /\
  exportedValue (js "SHELL2NODE_LOG") (generateBashRcContent logPath markerPath)
    = Some logPath /\
  exportedValue (js "SHELL2NODE_MARKER") (generateBashRcContent logPath markerPath)
    = Some markerPath.
Proof.
  split; [apply bash_rc_lines |].
  split; [rewrite bash_rc_lines; reflexivity |].
  apply bash_rc_exports.
Qed.

Lemma zsh_rc_lines (logPath markerPath : jsstring) :
  split_lines (generateZshRcContent logPath markerPath) =
  zshRcTemplate (QuoteJSONString logPath) (QuoteJSONString markerPath).
Proof.
  unfold generateZshRcContent. apply split_join_lines; [discriminate |].
  unfold zshRcTemplate. template_clean.
Qed.

Lemma zsh_rc_exports (logPath markerPath : jsstring) :
  exportedValue (js "SHELL2NODE_LOG") (generateZshRcContent logPath markerPath)
    = Some logPath /\
  exportedValue (js "SHELL2NODE_MARKER") (generateZshRcContent logPath markerPath)
    = Some markerPath.
Proof.
  unfold exportedValue. rewrite zsh_rc_lines. unfold zshRcTemplate. split.
  - do 2 (rewrite exported_skip by reflexivity).
    apply (exported_hit (js "SHELL2NODE_LOG")).
  - do 3 (rewrite exported_skip by reflexivity).
    apply (exported_hit (js "SHELL2NODE_MARKER")).
Qed.

(** X17: the zsh rc text, in the same way: 43 lines whatever the paths,
    and the literals on the two [export] lines read back as the paths. *)
Theorem zsh_rc_exports_round_trip (logPath markerPath : jsstring) :
  split_lines (generateZshRcContent logPath markerPath) =
    zshRcTemplate (QuoteJSONString logPath) (QuoteJSONString markerPath) /\
  List.length (split_lines (generateZshRcContent logPath markerPath)) = 43%nat /\
  exportedValue (js "SHELL2NODE_LOG") (generateZshRcContent logPath markerPath)
    = Some logPath /\
  exportedValue (js "SHELL2NODE_MARKER") (generateZshRcContent logPath markerPath)
    = Some markerPath.
Proof.
  split; [apply zsh_rc_lines |].
  split; [rewrite zsh_rc_lines; reflexivity |].
  apply zsh_rc_exports.
Qed.

Lemma plain_rc_lines (logPath markerPath : jsstring) :
  split_lines (generateRcContent logPath markerPath) =
  rcTemplate (QuoteJSONString logPath) (QuoteJSONString markerPath).
Proof.
  unfold generateRcContent. apply split_join_lines; [discriminate |].
  unfold rcTemplate. template_clean.
Qed.

Lemma plain_rc_exports (logPath markerPath : jsstring) :
  exportedValue (js "SHELL2NODE_LOG") (generateRcContent logPath markerPath)
    = Some logPath /\
  exportedValue (js "SHELL2NODE_MARKER") (generateRcContent logPath markerPath)
    = Some markerPath.
Proof.
  unfold exportedValue. rewrite plain_rc_lines. unfold rcTemplate. split.
  - do 2 (rewrite exported_skip by reflexivity).
    apply (exported_hit (js "SHELL2NODE_LOG")).
  - do 3 (rewrite exported_skip by reflexivity).
    apply (exported_hit (js "SHELL2NODE_MARKER")).
Qed.

(** X18: the text of [generateRcContent], in the same way: 37 lines
    whatever the paths, and the literals on the two [export] lines read
    back as the paths. *)
Theorem plain_rc_exports_round_trip (logPath markerPath : jsstring) :
  split_lines (generateRcContent logPath markerPath) =
    rcTemplate (QuoteJSONString logPath) (QuoteJSONString markerPath) /\
  List.length (split_lines (generateRcContent logPath markerPath)) = 37%nat /\
  exportedValue (js "SHELL2NODE_LOG") (generateRcContent logPath markerPath)
    = Some logPath /\
  exportedValue (js "SHELL2NODE_MARKER") (generateRcContent logPath markerPath)
    = Some markerPath.
Proof.
  split; [apply plain_rc_lines |].
  split; [rewrite plain_rc_lines; reflexivity |].
  apply plain_rc_exports.
Qed.

(** X19: the rc files the program writes name the files it uses.  In
    the text written to [capture_rc.sh] and in the text written to
    [.zshrc], the literal on the [export] line of [SHELL2NODE_LOG],
    read as a JSON string literal, is the path of the log file the
    program created and reads at exit, and the one on the line of
    [SHELL2NODE_MARKER] is the path of the marker it looks for.  What a
    shell makes of such a literal (inside double quotes it expands
    dollar signs, backticks and backslashes) is not covered. *)
Theorem workspace_rc_literals_are_workspace_paths (w : World) :
  exists bashBody zshBody,
    createWorkspace w =
      [ WriteFile (logFile w) (Text []) None;
        HelpMessage (tmpRoot w);
        WriteFile (bashRcPath w) bashBody (Some MODE_0600);
        WriteFile (zshRcPath w) zshBody (Some MODE_0600) ] /\
    exportedValue (js "SHELL2NODE_LOG") (fileText bashBody) = Some (logFile w) /\
    exportedValue (js "SHELL2NODE_MARKER") (fileText bashBody) = Some (markerFile w) /\
    exportedValue (js "SHELL2NODE_LOG") (fileText zshBody) = Some (logFile w) /\
    exportedValue (js "SHELL2NODE_MARKER") (fileText zshBody) = Some (markerFile w).
Proof.
  do 2 eexists. split; [reflexivity |]. cbn [fileText].
  destruct (bash_rc_exports (logFile w) (markerFile w)) as (B1 & B2).
  destruct (zsh_rc_exports (logFile w) (markerFile w)) as (Z1 & Z2).
  tauto.
Qed.

(** ** The artifact, read back

    The script text is read as the program it is, and the metadata
    document is parsed: both give back the retained entries. *)

Lemma noLineTerminator_forallb (s : jsstring) :
  forallb (fun c => negb (isLineTerminator c)) s = true -> noLineTerminator s.
Proof.
  intros H. apply Forall_forall. intros c Hc.
  rewrite forallb_forall in H. apply H in Hc. now apply negb_true_iff.
Qed.

Lemma digits_noLineTerminator (s : jsstring) :
  Forall isDigit s -> noLineTerminator s.
Proof.
  apply Forall_impl. intros c [H1 H2].
  unfold isLineTerminator, LF, CR.
  repeat (apply orb_false_iff; split); apply N.eqb_neq; lia.
Qed.

Lemma afterComment_line (c rest : jsstring) :
  noLineTerminator c -> afterComment (c ++ LF :: rest) = LF :: rest.
Proof.
  induction 1 as [| x c Hx _ IH]; [reflexivity |].
  cbn [app afterComment]. rewrite Hx. exact IH.
Qed.

Lemma skipCommentLine_line (c rest : jsstring) :
  noLineTerminator c ->
  skipCommentLine (js "//" ++ c ++ LF :: rest) = Some rest.
Proof.
  intros H. unfold skipCommentLine.
  rewrite expect_app, afterComment_line by assumption. reflexivity.
Qed.

Lemma join_lines_prefix (ls1 ls2 : list jsstring) :
  ls2 <> [] ->
  join_lines (ls1 ++ ls2) =
  List.concat (map (fun l => l ++ [LF]) ls1) ++ join_lines ls2.
Proof.
  intros H. induction ls1 as [| l ls1 IH]; [reflexivity |].
  cbn [app map List.concat]. rewrite <- !app_assoc, <- IH.
  destruct (ls1 ++ ls2) eqn:E; [| reflexivity].
  apply app_eq_nil in E. tauto.
Qed.

Lemma bodyText_join (es : list Entry) :
  join_lines (map runLine es ++ [js "})();"]) = bodyText es.
Proof.
  induction es as [| e es IH]; [reflexivity |].
  cbn [map app bodyText]. rewrite <- IH.
  destruct es; reflexivity.
Qed.

Lemma bodyText_app (es1 es2 : list Entry) :
  bodyText (es1 ++ es2) =
  List.concat (map (fun e => runLine e ++ [LF]) es1) ++ bodyText es2.
Proof.
  induction es1 as [| e es1 IH]; [reflexivity |].
  cbn [app bodyText map List.concat]. rewrite IH, <- !app_assoc. reflexivity.
Qed.

Lemma scriptText_layout (d : jsstring) (es : list Entry) :
  scriptText d es =
  js "//" ++ js " Generated by shell2node (MLP)" ++ LF ::
  js "//" ++ (js " Captured commands: " ++ showNat (List.length es)) ++ LF ::
  js "//" ++ (js " Generated at: " ++ d) ++ LF ::
  scriptFixedPart ++ bodyText es.
Proof.
  unfold scriptText, scriptLines.
  rewrite join_lines_prefix
    by (intros E; apply app_eq_nil in E; destruct E; discriminate).
  rewrite bodyText_join. unfold scriptPrologue.
  generalize (bodyText es) as body, (showNat (List.length es)) as count.
  intros body count. cbn [map List.concat].
  rewrite <- !app_assoc. reflexivity.
Qed.

Lemma bodyText_length (es : list Entry) :
  (List.length es <= List.length (bodyText es))%nat.
Proof.
  induction es as [| e es IH]; cbn [bodyText List.length]; [lia |].
  rewrite length_app. cbn [List.length]. lia.
Qed.

Lemma parseBody_call (fuel : nat) (c rest : jsstring) :
  parseBody (S fuel) (runLine (mkEntry None c) ++ LF :: rest) =
  match parseBody fuel rest with
  | Some commands => Some (c :: commands)
  | None => None
  end.
Proof.
  unfold runLine. cbn [cmd]. rewrite <- !app_assoc.
  cbn [parseBody].
  change (str_eqb (js "  run(" ++ QuoteJSONString c ++ js ");" ++ LF :: rest)
                  (js "})();")) with false.
  cbv iota.
  rewrite expect_app, lexString_QuoteJSONString.
  change (js ");" ++ LF :: rest) with ((js ");" ++ [LF]) ++ rest).
  rewrite expect_app. reflexivity.
Qed.

Lemma parseBody_bodyText (es : list Entry) :
  forall fuel, (List.length es < fuel)%nat ->
    parseBody fuel (bodyText es) = Some (map cmd es).
Proof.
  induction es as [| e es IH]; intros [| fuel] Hf;
    cbn [List.length] in Hf; try lia.
  - reflexivity.
  - cbn [bodyText map].
    change (runLine e) with (runLine (mkEntry None (cmd e))).
    rewrite parseBody_call, IH by lia. reflexivity.
Qed.

Lemma parseScript_scriptText (d : jsstring) (es : list Entry) :
  noLineTerminator d ->
  parseScript (scriptText d es) = Some (map cmd es).
Proof.
  intros Hd. rewrite scriptText_layout. unfold parseScript.
  rewrite skipCommentLine_line
    by (apply noLineTerminator_forallb; reflexivity).
  rewrite skipCommentLine_line
    by (apply Forall_app; split;
        [apply noLineTerminator_forallb; reflexivity
        | apply digits_noLineTerminator, showNat_digits]).
  rewrite skipCommentLine_line
    by (apply Forall_app; split;
        [apply noLineTerminator_forallb; reflexivity | exact Hd]).
  rewrite expect_app. apply parseBody_bodyText.
  pose proof (bodyText_length es). lia.
Qed.

Lemma runLine_in_scriptText (d : jsstring) (es : list Entry) (e : Entry) :
  In e es ->
  exists before after,
    scriptText d es =
    before ++ js "  run(" ++ QuoteJSONString (cmd e) ++ js ");" ++ LF :: after.
Proof.
  intros H. apply in_split in H as (es1 & es2 & ->).
  exists (List.concat
            (map (fun l => l ++ [LF])
                 (scriptPrologue (List.length (es1 ++ e :: es2)) d ++
                  map runLine es1))),
         (join_lines (map runLine es2 ++ [js "})();"])).
  unfold scriptText, scriptLines.
  replace (scriptPrologue (List.length (es1 ++ e :: es2)) d ++
           map runLine (es1 ++ e :: es2) ++ [js "})();"])
    with ((scriptPrologue (List.length (es1 ++ e :: es2)) d ++
           map runLine es1) ++
          runLine e :: (map runLine es2 ++ [js "})();"]))
    by (rewrite map_app, <- !app_assoc; reflexivity).
  rewrite join_lines_prefix by discriminate.
  f_equal.
  destruct es2; cbn [map app join_lines]; unfold runLine;
    rewrite <- !app_assoc; reflexivity.
Qed.

Lemma stepFails_iff (r : SpawnSyncResult) :
  stepFails r = true <->
  error r = true \/ exists st, status r = Some st /\ st <> 0%Z.
Proof.
  unfold stepFails. destruct (error r); cbn [orb]; [tauto |].
  destruct (status r) as [st |].
  - rewrite negb_true_iff, Z.eqb_neq. split.
    + intros H. right. exists st. tauto.
    + intros [H | (st' & E & H)]; [discriminate H |]. now injection E as ->.
  - split; [discriminate |].
    intros [H | (st' & E & _)]; discriminate.
Qed.

Lemma stepFails_not (r : SpawnSyncResult) :
  ~ (error r = true \/ exists st, status r = Some st /\ st <> 0%Z) ->
  stepFails r = false.
Proof.
  intros H. destruct (stepFails r) eqn:E; [| reflexivity].
  apply stepFails_iff in E. contradiction.
Qed.

Lemma metaEntries_metaJSON (w : World) (entries : list Entry) :
  metaEntries (metaJSON w entries) = Some entries.
Proof.
  unfold metaEntries, metaJSON.
  change (field (js "entries")
            (JObj [(js "originalCapturedAt", JStr (nowMeta w));
                   (js "tmpWorkspace", JStr (tmpRoot w));
                   (js "entries", JArr (map entryJSON entries))]))
    with (Some (JArr (map entryJSON entries))).
  induction entries as [| e es IH]; [reflexivity |].
  cbn [map entriesOfJSON]. rewrite IH.
  destruct e as [[t |] c]; reflexivity.
Qed.

Lemma onExit_artifact_files (w : World) code signal text :
  markerExists w = true -> logText w = Some text -> parseLog text <> [] ->
  artifactFails w = false ->
  (forall body mode,
     In (WriteFile (genFile w) body mode) (fst (onExit w code signal)) <->
     body = Text (scriptText (nowHeader w) (parseLog text)) /\ mode = None) /\
  (forall body mode,
     In (WriteFile (metaFile w) body mode) (fst (onExit w code signal)) <->
     body = Text (metaText w (parseLog text)) /\ mode = None).
Proof.
  intros M L Hne F.
  rewrite (onExit_entries w code signal text M L Hne). cbn [fst].
  split; intros body mode; split.
  - intros [H | H]; [discriminate H |].
    apply writeArtifact_writes in H as (-> & [(H & _) | (_ & -> & _)]).
    + now apply artifact_files_differ in H.
    + tauto.
  - intros (-> & ->). rewrite (writeArtifact_ok w _ F). cbn [fst].
    right. apply in_or_app. right. cbn [In]. tauto.
  - intros [H | H]; [discriminate H |].
    apply writeArtifact_writes in H as (-> & [(_ & -> & _) | (H & _)]).
    + tauto.
    + symmetry in H. now apply artifact_files_differ in H.
  - intros (-> & ->). rewrite (writeArtifact_ok w _ F). cbn [fst].
    right. apply in_or_app. right. cbn [In]. tauto.
Qed.

(** C2: in a saved session with at least one retained entry, the text
    written to the script file is a replay script whose calls are the
    retained entries' command texts, one call per entry and in the
    entries' order.  Run, the script passes each command to
    [spawnSync('sh', ['-c', command], { stdio: 'inherit' })], in that
    order, and stops at the first step that fails (a spawn error, or an
    exit status that is not zero): it exits there with that status (1
    when there is none, or when it is zero) and makes no later call.
    When no step fails, every call is made and the script runs to its
    end. *)
Theorem replay_script_stops_at_first_failure (w : World) code signal
    (text : jsstring)
    (sh : list SpawnSyncCall -> SpawnSyncCall -> SpawnSyncResult) :
  markerExists w = true -> logText w = Some text -> parseLog text <> [] ->
  artifactFails w = false -> noLineTerminator (nowHeader w) ->
  let entries := parseLog text in
  let commands := map cmd entries in
  let call := fun c => mkCall (js "sh") [js "-c"; c] StdioInherit in
  let result := fun i =>
    sh (map call (firstn i commands)) (call (nth i commands [])) in
  let fails := fun r =>
    error r = true \/ exists st, status r = Some st /\ st <> 0%Z in
  exists script,
    (forall body mode,
       In (WriteFile (genFile w) body mode) (fst (onExit w code signal)) <->
       body = Text script /\ mode = None) /\
    parseScript script = Some commands /\
    List.length commands = List.length entries /\
    (forall k,
       (k < List.length commands)%nat ->
       (forall i, (i < k)%nat -> ~ fails (result i)) ->
       fails (result k) ->
       exists st,
         runScriptText sh script =
           Some (map call (firstn (S k) commands), Some st) /\
         st <> 0%Z /\
         (forall s, status (result k) = Some s -> s <> 0%Z -> st = s) /\
         (status (result k) = None \/ status (result k) = Some 0%Z ->
          st = 1%Z)) /\
    ((forall i, (i < List.length commands)%nat -> ~ fails (result i)) ->
     runScriptText sh script = Some (map call commands, None)).
Proof.
  intros M L Hne F Hd. cbv zeta.
  exists (scriptText (nowHeader w) (parseLog text)).
  split; [apply (onExit_artifact_files w code signal text M L Hne F) |].
  unfold runScriptText. rewrite (parseScript_scriptText _ _ Hd).
  split; [reflexivity |]. split; [apply length_map |]. split.
  - intros k Hk Hpre Hfail.
    exists (exitOf (sh (map callOf (firstn k (map cmd (parseLog text))))
                       (callOf (nth k (map cmd (parseLog text)) [])))).
    split; [| split; [apply exitOf_nonzero | split]].
    + f_equal.
      apply (replay_first_failure sh (map cmd (parseLog text)) [] k Hk).
      * intros i Hi. apply stepFails_not, (Hpre i Hi).
      * apply stepFails_iff. exact Hfail.
    + intros s Hs Hs0. unfold exitOf.
      change (status (sh (map callOf (firstn k (map cmd (parseLog text))))
                         (callOf (nth k (map cmd (parseLog text)) []))))
        with (status (sh (map (fun c => mkCall (js "sh") [js "-c"; c] StdioInherit)
                               (firstn k (map cmd (parseLog text))))
                         (mkCall (js "sh")
                                 [js "-c"; nth k (map cmd (parseLog text)) []]
                                 StdioInherit))).
      rewrite Hs. apply Z.eqb_neq in Hs0. now rewrite Hs0.
    + intros Hs. unfold exitOf.
      change (status (sh (map callOf (firstn k (map cmd (parseLog text))))
                         (callOf (nth k (map cmd (parseLog text)) []))))
        with (status (sh (map (fun c => mkCall (js "sh") [js "-c"; c] StdioInherit)
                               (firstn k (map cmd (parseLog text))))
                         (mkCall (js "sh")
                                 [js "-c"; nth k (map cmd (parseLog text)) []]
                                 StdioInherit))).
      destruct Hs as [-> | ->]; reflexivity.
  - intros H. f_equal.
    apply (replay_all_succeed sh (map cmd (parseLog text)) []).
    intros i Hi. apply stepFails_not, (H i Hi).
Qed.

Lemma replay_script_stops_at_first_failure_witness :
  exists script,
    In (WriteFile (genFile world_replay) (Text script) None)
       (fst (onExit world_replay (Some 0%Z) None)) /\
    runScriptText sh_false_fails script =
      Some ([mkCall (js "sh") [js "-c"; js "false"] StdioInherit], Some 1%Z).
Proof.
  assert (Hne : parseLog (js "T1 false" ++ LF :: js "T2 echo after" ++ LF ::
                          js "T3 shell2node save" ++ [LF]) <> [])
    by (vm_compute; discriminate).
  assert (Hd : noLineTerminator (nowHeader world_replay))
    by (apply noLineTerminator_forallb; reflexivity).
  pose proof (replay_script_stops_at_first_failure world_replay (Some 0%Z) None
                _ sh_false_fails eq_refl eq_refl Hne eq_refl Hd) as H.
  cbv zeta in H. destruct H as (script & Hw & _ & _ & Hfail & _).
  exists script. split; [apply Hw; split; reflexivity |].
  destruct (Hfail 0%nat) as (st & Hrun & _ & Hst & _).
  - vm_compute. lia.
  - intros i Hi. lia.
  - right. exists 1%Z. split; [reflexivity | discriminate].
  - rewrite Hrun. rewrite (Hst 1%Z); [reflexivity | reflexivity | discriminate].
Defined.

(** C5: the command text of every retained entry is embedded in the
    replay script as the literal [JSON.stringify] gives, on a line
    [  run(<literal>);] of its own, and in the metadata document by JSON
    serialization.  Whatever the command texts are, the script text reads
    back as the fixed prologue followed by one call per entry, each
    literal decoding to exactly the entry's command text; the metadata
    document parses, and its [entries] are exactly the retained entries.
    A literal ends at its own closing quote whatever comes after it, and
    holds no line break and no unpaired surrogate. *)
Theorem command_text_round_trip (w : World) code signal (text : jsstring) :
  markerExists w = true -> logText w = Some text -> parseLog text <> [] ->
  artifactFails w = false -> noLineTerminator (nowHeader w) ->
  let entries := parseLog text in
  exists script metaDoc,
    (forall body mode,
       In (WriteFile (genFile w) body mode) (fst (onExit w code signal)) <->
       body = Text script /\ mode = None) /\
    (forall body mode,
       In (WriteFile (metaFile w) body mode) (fst (onExit w code signal)) <->
       body = Text metaDoc /\ mode = None) /\
    parseScript script = Some (map cmd entries) /\
    (exists fuel v,
       JSON_parse fuel metaDoc = Some v /\ metaEntries v = Some entries) /\
    (forall e, In e entries ->
       exists before after,
         script = before ++ js "  run(" ++ QuoteJSONString (cmd e) ++
                  js ");" ++ LF :: after) /\
    (forall c rest,
       lexString (QuoteJSONString c ++ rest) = Some (c, rest) /\
       ~ In LF (QuoteJSONString c) /\ ~ In CR (QuoteJSONString c) /\
       wellFormed (QuoteJSONString c) = true).
Proof.
  intros M L Hne F Hd. cbv zeta.
  exists (scriptText (nowHeader w) (parseLog text)), (metaText w (parseLog text)).
  destruct (onExit_artifact_files w code signal text M L Hne F) as [G1 G2].
  split; [exact G1 |]. split; [exact G2 |].
  split; [apply (parseScript_scriptText _ _ Hd) |]. split.
  - exists (weight (metaJSON w (parseLog text))), (metaJSON w (parseLog text)).
    split; [apply JSON_parse_stringify | apply metaEntries_metaJSON].
  - split.
    + intros e He. now apply runLine_in_scriptText.
    + intros c rest. split; [apply lexString_QuoteJSONString |].
      apply QuoteJSONString_shape.
Qed.

Lemma command_text_round_trip_witness :
  exists script metaDoc,
    In (WriteFile (genFile world_quoting) (Text script) None)
       (fst (onExit world_quoting (Some 0%Z) None)) /\
    In (WriteFile (metaFile world_quoting) (Text metaDoc) None)
       (fst (onExit world_quoting (Some 0%Z) None)) /\
    parseScript script = Some [quotedCommand] /\
    exists fuel v,
      JSON_parse fuel metaDoc = Some v /\
      metaEntries v = Some [mkEntry (Some (js "T1")) quotedCommand].
Proof.
  assert (Hne : parseLog (js "T1 " ++ quotedCommand ++ LF ::
                          js "T2 shell2node save" ++ [LF]) <> [])
    by (vm_compute; discriminate).
  assert (Hd : noLineTerminator (nowHeader world_quoting))
    by (apply noLineTerminator_forallb; reflexivity).
  pose proof (command_text_round_trip world_quoting (Some 0%Z) None _
                eq_refl eq_refl Hne eq_refl Hd) as H.
  cbv zeta in H.
  destruct H as (script & metaDoc & G1 & G2 & P & (fuel & v & J & E) & _).
  exists script, metaDoc.
  split; [apply G1; split; reflexivity |].
  split; [apply G2; split; reflexivity |].
  split; [exact P |]. exists fuel, v. split; [exact J | exact E].
Defined.
